(** * IL_trends: the ingestion script [append_il_ts.py] and the dashboard filter

    A shallow embedding of [parse_il_ts_file] and [main] of
    [append_il_ts.py], and of the filter/aggregate step of
    [streamlit_app_professional.py], with the properties the specification
    states about them.

    Modelling conventions.
    - Text is a list of characters; a character is a code point in
      U+0000..U+00FF (Rocq's [ascii]).  The character classes of the
      interpreter ([str.isspace], the regular expression classes [\s] and
      [\d], the line boundaries of [str.splitlines]) are written out on that
      range.
    - [int(s)] is the arbitrary-precision conversion; the interpreter's
      configurable limit on the number of digits is not modelled.
    - A data frame is the list of its rows, every cell present and typed
      (integers as [Z], text as [string]); column sums are sums in [Z].
    - Exceptions are results of an error monad; files are fields of a record
      that [main] threads through. *)

From Stdlib Require Import ZArith Ascii String DecimalString.
From stdpp Require Import base tactics option list numbers strings gmap
  fin_maps fin_sets lexico sorting.

Local Open Scope Z_scope.

(** ** Exceptions *)

Inductive exn := ValueError | FileNotFoundError.

Inductive result (A : Type) :=
  | Ok (a : A)
  | Raise (e : exn).
Arguments Ok {A} a.
Arguments Raise {A} e.

#[global] Instance result_ret : MRet result := λ A a, Ok a.
#[global] Instance result_bind : MBind result := λ A B k m,
  match m with
  | Ok a => k a
  | Raise e => Raise e
  end.

(** ** Characters and text *)

Module Text.

Definition text := list ascii.

Definition ord (c : ascii) : N := N_of_ascii c.

Definition tab : ascii := ascii_of_N 9.
Definition LF : ascii := ascii_of_N 10.
Definition CR : ascii := ascii_of_N 13.

(** [str.isspace] on one character, also the class [\s] and the characters
    [str.strip] and [int] drop: U+0009..U+000D, U+001C..U+0020, U+0085,
    U+00A0. *)
Definition is_space (c : ascii) : bool :=
  let n := ord c in
  ((9 <=? n) && (n <=? 13) || (28 <=? n) && (n <=? 32)
   || (n =? 133) || (n =? 160))%N.

(** The class [\d]: the decimal digits, below U+0100 only '0'..'9'. *)
Definition is_digit (c : ascii) : bool :=
  let n := ord c in ((48 <=? n) && (n <=? 57))%N.

Definition digit_value (c : ascii) : Z := Z.of_N (ord c) - 48.

(** The line boundaries of [str.splitlines]: \n \v \f \r, U+001C..U+001E
    and U+0085. *)
Definition is_linebreak (c : ascii) : bool :=
  let n := ord c in
  ((10 <=? n) && (n <=? 13) || (28 <=? n) && (n <=? 30) || (n =? 133))%N.

Fixpoint take_while (p : ascii → bool) (s : text) : text :=
  match s with
  | c :: s' => if p c then c :: take_while p s' else []
  | [] => []
  end.

Fixpoint drop_while (p : ascii → bool) (s : text) : text :=
  match s with
  | c :: s' => if p c then drop_while p s' else s
  | [] => []
  end.

Definition lstrip (s : text) : text := drop_while is_space s.
Definition rstrip (s : text) : text := rev (drop_while is_space (rev s)).
Definition strip (s : text) : text := rstrip (lstrip s).

(** [str.splitlines()]: [line] holds, reversed, the characters of the
    line being read; "\r\n" is one boundary; no empty last line. *)
Fixpoint splitlines_from (line : text) (s : text) : list text :=
  match s with
  | [] => match line with [] => [] | _ => [rev line] end
  | c :: s' =>
      if is_linebreak c then
        rev line ::
          match s' with
          | d :: s'' =>
              if (ord c =? 13)%N && (ord d =? 10)%N
              then splitlines_from [] s''
              else splitlines_from [] s'
          | [] => splitlines_from [] s'
          end
      else splitlines_from (c :: line) s'
  end.

Definition splitlines (s : text) : list text := splitlines_from [] s.

(** [s.split(sep)] for a one-character separator: never empty. *)
Fixpoint split (sep : ascii) (s : text) : list text :=
  match s with
  | [] => [[]]
  | c :: s' =>
      if (ord c =? ord sep)%N then [] :: split sep s'
      else match split sep s' with
           | p :: ps => (c :: p) :: ps
           | [] => [[c]]
           end
  end.

(** [int(s)] in base 10: surrounding whitespace dropped, an optional
    sign, then digits in which single underscores may separate digits.
    [None] is [ValueError]. *)
Fixpoint int_digits (acc : Z) (after_digit : bool) (s : text) : option Z :=
  match s with
  | [] => if after_digit then Some acc else None
  | c :: s' =>
      if is_digit c then int_digits (10 * acc + digit_value c) true s'
      else if (ord c =? 95)%N && after_digit then int_digits acc false s'
      else None
  end.

Definition int (s : text) : option Z :=
  match strip s with
  | c :: s' =>
      if (ord c =? 45)%N then Z.opp <$> int_digits 0 false s'
      else if (ord c =? 43)%N then int_digits 0 false s'
      else int_digits 0 false (c :: s')
  | [] => None
  end.

Definition of_string (s : string) : text := list_ascii_of_string s.

End Text.

Import Text.

(** ** The two regular expressions of [parse_il_ts_file] *)

(** The alternation [(\d{4}|\d{3}|\d{2}|\d{1})] is tried left to right, the
    first alternative after which the rest of the pattern matches wins. *)
Definition year_widths : list nat := [4; 3; 2; 1]%nat.

Definition digits_at_start (k : nat) (line : text) : bool :=
  (length (take k line) =? k)%nat && forallb is_digit (take k line).

(** [re.match(r'^(\d{4}|\d{3}|\d{2}|\d{1})\t', line)], as a truth value. *)
Definition match_year_tab (line : text) : bool :=
  existsb
    (λ k, digits_at_start k line &&
          match drop k line with
          | c :: _ => (ord c =? ord tab)%N
          | [] => false
          end)
    year_widths.

(** The tail [\s+(\d+)]: both quantifiers are greedy, and since no
    character is a space and a digit, giving back a space never helps. *)
Definition match_spaces_digits (rest : text) : option text :=
  match take_while is_space rest with
  | [] => None
  | _ :: _ =>
      match take_while is_digit (drop_while is_space rest) with
      | [] => None
      | ds => Some ds
      end
  end.

(** [re.match(r'^(\d{4}|\d{3}|\d{2}|\d{1})\s+(\d+)', line)]: the groups. *)
Fixpoint match_year_space_at (widths : list nat) (line : text)
  : option (text * text) :=
  match widths with
  | [] => None
  | k :: widths' =>
      if digits_at_start k line then
        match match_spaces_digits (drop k line) with
        | Some g2 => Some (take k line, g2)
        | None => match_year_space_at widths' line
        end
      else match_year_space_at widths' line
  end.

Definition match_year_space (line : text) : option (text * text) :=
  match_year_space_at year_widths line.

(** ** [parse_il_ts_file] *)

(** The body of the loop, for one line: [Ok (Some (year_i, count))] when a
    pair is appended, [Ok None] when the line is passed over. *)
Definition parse_line (line : text) : result (option (Z * Z)) :=
  let line := strip line in
  match line with
  | [] => Ok None
  | _ :: _ =>
      if match_year_tab line then
        let parts := split tab line in
        if (2 <=? length parts)%nat then
          match int (nth 0 parts []) with
          | None => Ok None
          | Some year_i =>
              match int (nth 1 parts []) with
              | None => Ok None
              | Some count => Ok (Some (year_i, count))
              end
          end
        else Ok None
      else
        match match_year_space line with
        | Some (g1, g2) =>
            match int g1, int g2 with
            | Some year_i, Some count => Ok (Some (year_i, count))
            | _, _ => Raise ValueError
            end
        | None => Ok None
        end
  end.

Fixpoint parse_lines (lines : list text) (rows : list (Z * Z))
  : result (list (Z * Z)) :=
  match lines with
  | [] => Ok rows
  | line :: lines' =>
      o ← parse_line line;
      match o with
      | Some yc => parse_lines lines' (rows ++ [yc])
      | None => parse_lines lines' rows
      end
  end.

(** [content] is what [path.read_text()] returns. *)
Definition parse_il_ts_file (content : text) : result (list (Z * Z)) :=
  parse_lines (splitlines (strip content)) [].

(** ** Orders on keys

    Python compares integers by value and strings code point by code point;
    tuples of keys lexicographically. *)

Definition str_key (s : string) : list N := ord <$> of_string s.

#[global] Instance string_lexico : Lexico string :=
  λ s1 s2, lexico (str_key s1) (str_key s2).

Lemma str_key_inj (s1 s2 : string) : str_key s1 = str_key s2 → s1 = s2.
Proof.
  unfold str_key, of_string, ord. intros Heq.
  rewrite <- (string_of_list_ascii_of_string s1),
          <- (string_of_list_ascii_of_string s2).
  f_equal. revert Heq.
  generalize (list_ascii_of_string s1) (list_ascii_of_string s2).
  induction l as [|a l IH]; intros [|b l']; simpl; try discriminate; auto.
  intros [= Hab Hl]. f_equal; [|by apply IH].
  by rewrite <- (ascii_N_embedding a), <- (ascii_N_embedding b), Hab.
Qed.

#[global] Instance string_lexico_po : StrictOrder (@lexico string _).
Proof.
  unfold lexico, string_lexico. split.
  - intros s Hs. exact (irreflexivity lexico (str_key s) Hs).
  - intros s1 s2 s3 H12 H23.
    exact (transitivity (R:=lexico) (x:=str_key s1) H12 H23).
Qed.

#[global] Instance string_lexico_trichotomy : TrichotomyT (@lexico string _).
Proof.
  intros s1 s2.
  refine (match trichotomyT lexico (str_key s1) (str_key s2) with
          | inleft (left Hlt) => inleft (left Hlt)
          | inleft (right Heq) => inleft (right (str_key_inj _ _ Heq))
          | inright Hgt => inright Hgt
          end).
Defined.

(** [k1 <= k2] for the strict order [lexico]. *)
Definition key_le {K} `{Lexico K} (k1 k2 : K) : Prop :=
  k1 = k2 ∨ lexico k1 k2.

#[global] Instance key_le_dec {K} `{Lexico K, EqDecision K,
    !TrichotomyT (@lexico K _), !StrictOrder (@lexico K _)} :
  RelDecision (@key_le K _).
Proof. intros k1 k2. unfold key_le. apply _. Defined.

(** ** The master tables *)

Record row := Row {
  Year : Z;
  Search_Topic_ID : Z;
  Search_Topic : string;
  Search_Level : string;
  Search_Level_Description : string;
  Record_Count : Z
}.

#[global] Instance row_eq_dec : EqDecision row.
Proof. solve_decision. Defined.

Definition TOPIC_MAP : gmap Z string :=
  list_to_map
    [(6, "Ionic Liquids (All)"%string);
     (7, "ILs in Electrochemistry"%string);
     (8, "ILs in Electrochemical Manufacturing"%string);
     (9, "Elevated-T IL Electrochemical Manufacturing"%string)].

Definition total (counts : list Z) : Z := foldr Z.add 0 counts.

(** [df.groupby(keys)['Record_Count'].sum()]: one running sum per key. *)
Definition groupby_sum {K} `{Countable K} (key : row → K) (df : list row)
  : gmap K Z :=
  foldl (λ sums r, <[key r := default 0 (sums !! key r) + Record_Count r]> sums)
        ∅ df.

(** The sum of [Record_Count] over the rows of [df] with key [k]. *)
Definition group_total {K} `{EqDecision K} (key : row → K) (df : list row)
    (k : K) : Z :=
  total (Record_Count <$> filter (λ r, key r = k) df).

(** [df.sort_values(['Search_Topic_ID','Search_Level','Year'])]. *)
Definition sort_key (r : row) : Z * string * Z :=
  (Search_Topic_ID r, Search_Level r, Year r).

Definition sort_values (df : list row) : list row :=
  merge_sort (λ r1 r2, key_le (sort_key r1) (sort_key r2)) df.

(** The rows of a grouped sum come out in the order of their keys. *)
Definition sorted_items {K} `{Countable K, Lexico K,
    !TrichotomyT (@lexico K _), !StrictOrder (@lexico K _)}
    (sums : gmap K Z) : list (K * Z) :=
  merge_sort (λ a b, key_le a.1 b.1) (map_to_list sums).

(** *** The pivot view *)

Definition pivot_index (r : row) : Z * Z * string :=
  (Year r, Search_Topic_ID r, Search_Topic r).

Record pivot_frame := PivotFrame {
  pivot_columns : list string;
  pivot_rows : list ((Z * Z * string) * list Z)
}.

Definition pivot_key (r : row) : (Z * Z * string) * string :=
  (pivot_index r, Search_Level r).

(** The three scope columns the pivot view may have. *)
Definition scope_columns : list string := ["KW"; "TI"; "TS"]%string.

(** Unstacking the last level of the grouped sums: the distinct index
    values label the rows, the distinct levels label the columns, both in
    order. *)
Definition unstack_index (agged : gmap ((Z * Z * string) * string) Z)
  : list (Z * Z * string) :=
  merge_sort key_le (elements (set_map (D:=gset _) fst (dom agged))).

Definition unstack_columns (agged : gmap ((Z * Z * string) * string) Z)
  : list string :=
  merge_sort key_le (elements (set_map (D:=gset string) snd (dom agged))).

(** [df.pivot_table(index=['Year','Search_Topic_ID','Search_Topic'],
    columns='Search_Level', values='Record_Count', aggfunc='sum',
    fill_value=0).reset_index()] followed by the selection of the columns
    ['KW','TI','TS'] that the table has: grouped sums over index and
    level, one row per index value, one column per level, the fill value
    where a group has no sum. *)
Definition pivot_table (df : list row) : pivot_frame :=
  let agged := groupby_sum pivot_key df in
  let index := unstack_index agged in
  let columns := unstack_columns agged in
  let pivot_cols := filter (λ c, c ∈ columns) scope_columns in
  {| pivot_columns := pivot_cols;
     pivot_rows :=
       (λ i, (i, (λ c, default 0 (agged !! (i, c))) <$> pivot_cols))
         <$> index |}.

(** *** The summary view *)

Definition summary_key (r : row) : Z * string * string :=
  (Search_Topic_ID r, Search_Topic r, Search_Level r).

Record summary_row := SummaryRow {
  summary_Search_Topic_ID : Z;
  summary_Search_Topic : string;
  summary_Search_Level : string;
  summary_Record_Count : Z
}.

Definition summary_row_key (sr : summary_row) : Z * string * string :=
  (summary_Search_Topic_ID sr, summary_Search_Topic sr,
   summary_Search_Level sr).

(** [df.groupby(['Search_Topic_ID','Search_Topic','Search_Level'],
    as_index=False)['Record_Count'].sum()]. *)
Definition summary (df : list row) : list summary_row :=
  (λ kv, let '(id, topic, level) := kv.1 in SummaryRow id topic level kv.2)
    <$> sorted_items (groupby_sum summary_key df).



(** ** [main] *)

(** The directory [IL_TS]: names and contents of its files, in the order
    the directory is listed. *)
Definition directory := list (string * text).

Definition str (n : Z) : string := NilEmpty.string_of_int (Z.to_int n).

(** The names that [f"{topic_id}_*.txt"] matches. *)
Definition glob_matches (topic_id : Z) (name : string) : bool :=
  let n := of_string name in
  let pre := of_string (str topic_id ++ "_") in
  let suf := of_string ".txt" in
  bool_decide (take (length pre) n = pre)
  && bool_decide (drop (length n - length suf) n = suf)
  && (length pre + length suf <=? length n)%nat.

(** [list(IL_TS_DIR.glob(f"{topic_id}_*.txt"))], each path standing for
    the text read from it. *)
Definition glob (IL_TS_DIR : directory) (topic_id : Z) : list text :=
  snd <$> filter (λ f, glob_matches topic_id f.1 = true) IL_TS_DIR.

Definition new_row (topic_id : Z) (yc : Z * Z) : row :=
  {| Year := yc.1;
     Search_Topic_ID := topic_id;
     Search_Topic := default ""%string (TOPIC_MAP !! topic_id);
     Search_Level := "TS";
     Search_Level_Description := "Title + Abstract + Keywords";
     Record_Count := yc.2 |}.

(** The loop over [sorted(TOPIC_MAP.keys())]. *)
Fixpoint append_topics (IL_TS_DIR : directory) (topic_ids : list Z)
    (appended_rows : list row) : result (list row) :=
  match topic_ids with
  | [] => Ok appended_rows
  | topic_id :: topic_ids' =>
      match glob IL_TS_DIR topic_id with
      | [] => append_topics IL_TS_DIR topic_ids' appended_rows
      | path :: _ =>
          rows ← parse_il_ts_file path;
          append_topics IL_TS_DIR topic_ids'
            (appended_rows ++ (new_row topic_id <$> rows))
      end
  end.

Definition appended (IL_TS_DIR : directory) : result (list row) :=
  append_topics IL_TS_DIR (merge_sort Z.le (elements (dom TOPIC_MAP))) [].

(** The files [main] reads and writes; [None] is a file that does not
    exist.  A CSV file stands for the table it holds. *)
Record files := Files {
  MASTER_DETAILED : option (list row);
  MASTER_DETAILED_bak : option (list row);
  MASTER_PIVOT : option pivot_frame;
  MASTER_SUMMARY : option (list summary_row)
}.

(** The rows of the master table that the mask keeps. *)
Definition mask (r : row) : Prop :=
  ¬ (Search_Topic_ID r ∈ dom TOPIC_MAP ∧ Search_Level r = "TS"%string).

#[global] Instance mask_dec r : Decision (mask r).
Proof. unfold mask. apply _. Defined.

(** [main]: the files after the run, and how the run ended. *)
Definition main (IL_TS_DIR : directory) (fs : files) : files * result () :=
  let fs :=
    match MASTER_DETAILED fs with
    | Some bytes =>
        Files (MASTER_DETAILED fs) (Some bytes) (MASTER_PIVOT fs)
              (MASTER_SUMMARY fs)
    | None => fs
    end in
  match MASTER_DETAILED fs with
  | None => (fs, Raise FileNotFoundError)
  | Some df_master =>
      match appended IL_TS_DIR with
      | Raise e => (fs, Raise e)
      | Ok [] => (fs, Ok ())
      | Ok ((_ :: _) as df_new) =>
          let df_master_clean := filter mask df_master in
          let df_combined := sort_values (df_master_clean ++ df_new) in
          (Files (Some df_combined) (MASTER_DETAILED_bak fs)
                 (Some (pivot_table df_combined))
                 (Some (summary df_combined)),
           Ok ())
      end
  end.


(** The rows one topic contributes: none without a matching file, else one
    per pair parsed from the first match. *)
Definition topic_rows (IL_TS_DIR : directory) (topic_id : Z) : list row :=
  match glob IL_TS_DIR topic_id with
  | [] => []
  | path :: _ =>
      match parse_il_ts_file path with
      | Ok rows => new_row topic_id <$> rows
      | Raise _ => []
      end
  end.

(** *** Sample inputs *)

Definition sample_row (topic_id : Z) (level : string) (count : Z) : row :=
  {| Year := 2000; Search_Topic_ID := topic_id;
     Search_Topic := "ILs in Electrochemistry"; Search_Level := level;
     Search_Level_Description := "Title + Abstract + Keywords";
     Record_Count := count |}.

(** A directory with a file for topic 6 only, holding "2020<TAB>5". *)
Definition only_topic_6 : directory :=
  [("6_ionic_liquids.txt"%string, of_string "2020" ++ [tab] ++ of_string "5")].

Definition files_with (master : list row) : files :=
  {| MASTER_DETAILED := Some master; MASTER_DETAILED_bak := None;
     MASTER_PIVOT := None; MASTER_SUMMARY := None |}.

(** ** The dashboard: filter and aggregate *)

Definition filtered (df : list row) (selected_topic_ids : list Z)
    (selected_levels : list string) (year_start year_end : Z) : list row :=
  filter (λ r, Search_Topic_ID r ∈ selected_topic_ids
               ∧ Search_Level r ∈ selected_levels
               ∧ year_start ≤ Year r ∧ Year r ≤ year_end) df.

Definition agg_key (r : row) : Z * Z * string * string :=
  (Year r, Search_Topic_ID r, Search_Topic r, Search_Level r).

(** [filtered.groupby(['Year','Search_Topic_ID','Search_Topic',
    'Search_Level'], as_index=False)['Record_Count'].sum()]. *)
Definition agg (filtered : list row) : list ((Z * Z * string * string) * Z) :=
  sorted_items (groupby_sum agg_key filtered).


(** ** The dashboard: colours and line styles

    Further conventions for the dashboard.
    - [hex_to_rgba] is modelled on arguments that are a [str]; [alpha] is
      the text the format string gives for the number passed.
    - Sorting by one column is a merge sort here; [pandas] leaves open in
      which order rows with equal keys come, and no property below depends
      on it.
    - [int(s, 16)] has its own whitespace class, [is_int_space].  The
      interpreter's [int] drops U+0009..U+000D, U+0020, U+0085 and U+00A0
      only, in base 10 as well, whereas [Text.int] above drops all of
      [is_space]: the two differ on a text in which one of U+001C..U+001F
      stands next to the number. *)



(** *** [int(s, 16)] *)

(** The whitespace the conversion drops around the number.  It is the
    conversion's own class, which unlike [str.isspace] leaves out
    U+001C..U+001F: U+0009..U+000D, U+0020, U+0085, U+00A0. *)
Definition is_int_space (c : ascii) : bool :=
  let n := ord c in
  ((9 <=? n) && (n <=? 13) || (n =? 32) || (n =? 133) || (n =? 160))%N.

(** The value of a hexadecimal digit: '0'..'9', 'a'..'f', 'A'..'F'. *)
Definition hex_digit_value (c : ascii) : option Z :=
  let n := ord c in
  if ((48 <=? n) && (n <=? 57))%N then Some (Z.of_N n - 48)
  else if ((97 <=? n) && (n <=? 102))%N then Some (Z.of_N n - 87)
  else if ((65 <=? n) && (n <=? 70))%N then Some (Z.of_N n - 55)
  else None.

(** Digits in which single underscores may separate digits. *)
Fixpoint int16_digits (acc : Z) (after_digit : bool) (s : text) : option Z :=
  match s with
  | [] => if after_digit then Some acc else None
  | c :: s' =>
      match hex_digit_value c with
      | Some d => int16_digits (16 * acc + d) true s'
      | None =>
          if (ord c =? 95)%N && after_digit then int16_digits acc false s'
          else None
      end
  end.

(** The optional prefix "0x" or "0X", after which one underscore may
    come. *)
Definition int16_prefix (s : text) : text :=
  match s with
  | z :: x :: s' =>
      if (ord z =? 48)%N && ((ord x =? 120)%N || (ord x =? 88)%N) then
        match s' with
        | u :: s'' => if (ord u =? 95)%N then s'' else s'
        | [] => s'
        end
      else s
  | _ => s
  end.

(** [int(s, 16)]; [None] is [ValueError]. *)
Definition int16 (s : text) : option Z :=
  match rev (drop_while is_int_space (rev (drop_while is_int_space s))) with
  | c :: s' =>
      if (ord c =? 45)%N then Z.opp <$> int16_digits 0 false (int16_prefix s')
      else if (ord c =? 43)%N then int16_digits 0 false (int16_prefix s')
      else int16_digits 0 false (int16_prefix (c :: s'))
  | [] => None
  end.

Definition int_16 (s : text) : result Z :=
  match int16 s with
  | Some n => Ok n
  | None => Raise ValueError
  end.

(** *** [hex_to_rgba] *)

(** The values of [r, g, b] for [h], the colour without its leading '#'
    characters; [None] when the length of [h] is neither 3 nor at least
    6. *)
Definition hex_to_rgba_rgb (h : text) : option (result (Z * Z * Z)) :=
  match h with
  | [c0; c1; c2] =>
      Some (r ← int_16 [c0; c0]; g ← int_16 [c1; c1]; b ← int_16 [c2; c2];
            Ok (r, g, b))
  | _ =>
      if (6 <=? length h)%nat then
        Some (r ← int_16 (take 2 h); g ← int_16 (take 2 (drop 2 h));
              b ← int_16 (take 2 (drop 4 h)); Ok (r, g, b))
      else None
  end.

Definition rgba (r g b : Z) (alpha : string) : text :=
  of_string ("rgba(" ++ str r ++ "," ++ str g ++ "," ++ str b ++ ","
             ++ alpha ++ ")").

(** [hex_to_rgba(hex_color, alpha)] for a [hex_color] that is a [str].
    [alpha] stands for the text the format string gives for the number
    passed, "0.15" for 0.15. *)
Definition hex_to_rgba (hex_color : text) (alpha : string) : result text :=
  let h := drop_while (λ c, (ord c =? 35)%N) hex_color in
  match hex_to_rgba_rgb h with
  | Some rgb => '(r, g, b) ← rgb; Ok (rgba r g b alpha)
  | None => Ok hex_color
  end.

(** ** The dashboard: topic names and the controls *)

(** [drop_duplicates()]: of equal rows the first is kept. *)
Fixpoint drop_duplicates_from {A} `{EqDecision A} (seen l : list A)
  : list A :=
  match l with
  | [] => []
  | x :: l' =>
      if decide (x ∈ seen) then drop_duplicates_from seen l'
      else x :: drop_duplicates_from (x :: seen) l'
  end.

Definition drop_duplicates {A} `{EqDecision A} (l : list A) : list A :=
  drop_duplicates_from [] l.

(** [set_index(...)[...].to_dict()]: of the values of one key the last
    stays. *)
Definition to_dict {K V} `{Countable K} (items : list (K * V)) : gmap K V :=
  foldl (λ d kv, <[kv.1 := kv.2]> d) ∅ items.

(** [topic_map], once the names of topics 0 to 5 are filled in. *)
Definition topic_map (df : list row) : gmap Z string :=
  let topic_map :=
    to_dict (drop_duplicates
               ((λ r, (Search_Topic_ID r, Search_Topic r)) <$> df)) in
  foldl (λ topic_map tid,
           if decide (tid ∈ dom topic_map) then topic_map
           else <[tid := ("Topic " ++ str tid)%string]> topic_map)
        topic_map (seqZ 0 6).

Definition options (topic_map : gmap Z string) : list Z :=
  merge_sort Z.le (elements (dom topic_map)).

Definition default_topics (options : list Z) : list Z :=
  match options with
  | [] => []
  | o :: _ => if decide (0 ∈ options) then [0] else [o]
  end.

(** The options of the year slider, [range(min_year, max_year + 1)]; of
    an empty table the minimum is not a number and [int] raises. *)
Definition year_options (df : list row) : result (list Z) :=
  match Year <$> df with
  | [] => Raise ValueError
  | y :: ys =>
      let min_year := Z.max 1975 (foldr Z.min y ys) in
      let max_year := Z.min 2024 (foldr Z.max y ys) in
      Ok (seqZ min_year (max_year + 1 - min_year))
  end.

(** ** The dashboard: the traces of the figure *)

(** A row of [agg]: the group's keys and its sum. *)
Definition agg_row : Type := (Z * Z * string * string) * Z.

Definition agg_Year (a : agg_row) : Z := a.1.1.1.1.


(** The order of [sort_values('Record_Count', ascending=False)]. *)
Definition count_ge (t1 t2 : (Z * string) * Z) : Prop := t2.2 ≤ t1.2.

#[global] Instance count_ge_dec : RelDecision count_ge.
Proof. intros t1 t2. unfold count_ge. apply _. Defined.

(** The order of [sort_values(by='Year')]. *)
Definition year_le (a1 a2 : agg_row) : Prop := agg_Year a1 ≤ agg_Year a2.

#[global] Instance year_le_dec : RelDecision year_le.
Proof. intros a1 a2. unfold year_le. apply _. Defined.









(** ** Text files, line by line *)

(** [sep.join(lines)]. *)
Fixpoint join (sep : text) (lines : list text) : text :=
  match lines with
  | [] => []
  | [line] => line
  | line :: lines' => line ++ sep ++ join sep lines'
  end.

(** Lists of lines between which the loop of [parse_il_ts_file] makes no
    difference. *)
Definition same_rows (lines1 lines2 : list text) : Prop :=
  ∀ rows, parse_lines lines1 rows = parse_lines lines2 rows.

(** ** The accepted lines, in the words of the specification *)

(** The number a run of digits denotes. *)
Definition digits_value (ds : text) : Z :=
  foldl (λ acc c, 10 * acc + digit_value c) 0 ds.

(** [line] begins with the number [ds], of one to four digits, and goes on
    with [rest]. *)
Definition year_then (line ds rest : text) : Prop :=
  line = ds ++ rest ∧ (1 ≤ length ds ≤ 4)%nat ∧ forallb is_digit ds = true.

Definition begins_year_tab (line : text) : Prop :=
  ∃ ds rest, year_then line ds (tab :: rest).

(** A number of one to four digits, a tab, and a second tab-separated
    field that [int] accepts. *)
Definition tab_pair (line : text) (yc : Z * Z) : Prop :=
  ∃ ds rest,
    year_then line ds (tab :: rest) ∧
    yc.1 = digits_value ds ∧
    int (nth 0 (split tab rest) []) = Some yc.2.

(** A number of one to four digits, whitespace, and a run of digits. *)
Definition space_pair (line : text) (yc : Z * Z) : Prop :=
  ∃ ds ws ds2 rest,
    year_then line ds (ws ++ ds2 ++ rest) ∧
    ws ≠ [] ∧ forallb is_space ws = true ∧
    ds2 ≠ [] ∧ forallb is_digit ds2 = true ∧
    match rest with [] => True | c :: _ => is_digit c = false end ∧
    yc = (digits_value ds, digits_value ds2).


(** The lines that yield a pair in the code: the second form counts only
    for a line that does not begin with a number and a tab. *)
Definition accepted_pair (line : text) (yc : Z * Z) : Prop :=
  tab_pair line yc ∨ (¬ begins_year_tab line ∧ space_pair line yc).


(** * Properties *)

(** ** Characters, [strip], [int] *)

Section text_facts.

Implicit Types (c : ascii) (s ds : text).

Lemma digit_not_space c : is_digit c = true → is_space c = false.
Proof.
  unfold is_digit, is_space. generalize (ord c); intros n Hd.
  apply andb_true_iff in Hd as [H1 H2].
  apply N.leb_le in H1, H2.
  repeat (apply orb_false_iff; split);
    try (apply andb_false_iff; (left + right); apply N.leb_gt; lia);
    apply N.eqb_neq; lia.
Qed.

Lemma digit_not_tab c : is_digit c = true → (ord c =? ord tab)%N = false.
Proof.
  unfold is_digit. intros Hd. apply andb_true_iff in Hd as [H1 _].
  apply N.leb_le in H1. apply N.eqb_neq.
  change (ord tab) with 9%N. lia.
Qed.

Lemma tab_is_space c : (ord c =? ord tab)%N = true → is_space c = true.
Proof.
  intros H. apply N.eqb_eq in H. unfold is_space. rewrite H. reflexivity.
Qed.

Lemma digit_value_range c : is_digit c = true → 0 ≤ digit_value c ≤ 9.
Proof.
  unfold is_digit, digit_value. intros Hd.
  apply andb_true_iff in Hd as [H1 H2]. apply N.leb_le in H1, H2. lia.
Qed.

Lemma take_drop_while p s : take_while p s ++ drop_while p s = s.
Proof. induction s as [|c s IH]; simpl; [done|]. destruct (p c); simpl; by f_equal. Qed.

Lemma forallb_take_while p s : forallb p (take_while p s) = true.
Proof.
  induction s as [|c s IH]; simpl; [done|].
  destruct (p c) eqn:Hc; simpl; [by rewrite Hc|done].
Qed.

Lemma head_drop_while p s c :
  head (drop_while p s) = Some c → p c = false.
Proof.
  induction s as [|d s IH]; simpl; [done|].
  destruct (p d) eqn:Hd; simpl; [done|]. by intros [= <-].
Qed.

Lemma take_while_app p s s' :
  forallb p s = true →
  take_while p (s ++ s') = s ++ take_while p s'.
Proof.
  induction s as [|c s IH]; simpl; [done|].
  intros [Hc Hs]%andb_true_iff. rewrite Hc. by rewrite IH.
Qed.

Lemma drop_while_app p s s' :
  forallb p s = true →
  drop_while p (s ++ s') = drop_while p s'.
Proof.
  induction s as [|c s IH]; simpl; [done|].
  intros [Hc Hs]%andb_true_iff. rewrite Hc. by rewrite IH.
Qed.

Lemma take_while_stop p s :
  match s with [] => True | c :: _ => p c = false end →
  take_while p s = [].
Proof. destruct s as [|c s]; simpl; [done|]. by intros ->. Qed.

Lemma drop_while_stop p s :
  match s with [] => True | c :: _ => p c = false end →
  drop_while p s = s.
Proof. destruct s as [|c s]; simpl; [done|]. by intros ->. Qed.

(** A run of digits has no space at either end: [strip] leaves it. *)
Lemma strip_digits ds : forallb is_digit ds = true → strip ds = ds.
Proof.
  intros Hds. unfold strip, lstrip, rstrip.
  assert (Hstop : ∀ s, forallb is_digit s = true →
            drop_while is_space s = s).
  { intros s Hs. apply drop_while_stop. destruct s as [|c s]; [done|].
    simpl in Hs. apply andb_true_iff in Hs as [Hc _].
    by apply digit_not_space. }
  rewrite (Hstop ds Hds), Hstop, rev_involutive; [done|].
  rewrite forallb_forall in *. intros c Hc. apply Hds. by apply in_rev.
Qed.

Lemma int_digits_run ds acc b :
  forallb is_digit ds = true → (ds ≠ [] ∨ b = true) →
  int_digits acc b ds
  = Some (foldl (λ acc c, 10 * acc + digit_value c) acc ds).
Proof.
  revert acc b. induction ds as [|c ds IH]; simpl; intros acc b Hds Hne.
  - destruct Hne as [? | ->]; done.
  - apply andb_true_iff in Hds as [Hc Hds]. rewrite Hc. apply IH; auto.
Qed.

Lemma int_digits_value ds :
  forallb is_digit ds = true → ds ≠ [] → int ds = Some (digits_value ds).
Proof.
  intros Hds Hne. unfold int. rewrite strip_digits by done.
  destruct ds as [|c ds]; [done|].
  assert (Hc : is_digit c = true).
  { simpl in Hds. by apply andb_true_iff in Hds as [? _]. }
  assert (H45 : (ord c =? 45)%N = false).
  { unfold is_digit in Hc. apply andb_true_iff in Hc as [H1 _].
    apply N.leb_le in H1. apply N.eqb_neq. lia. }
  assert (H43 : (ord c =? 43)%N = false).
  { unfold is_digit in Hc. apply andb_true_iff in Hc as [H1 _].
    apply N.leb_le in H1. apply N.eqb_neq. lia. }
  rewrite H45, H43. apply int_digits_run; auto.
Qed.

Lemma digits_value_bound ds :
  forallb is_digit ds = true →
  0 ≤ digits_value ds < 10 ^ Z.of_nat (length ds).
Proof.
  unfold digits_value. intros Hds.
  cut (∀ acc, 0 ≤ acc →
         0 ≤ foldl (λ acc c, 10 * acc + digit_value c) acc ds
           < (acc + 1) * 10 ^ Z.of_nat (length ds)).
  { intros H. specialize (H 0). lia. }
  induction ds as [|c ds IH]; intros acc Hacc; simpl foldl.
  - simpl. lia.
  - simpl in Hds. apply andb_true_iff in Hds as [Hc Hds].
    pose proof (digit_value_range c Hc).
    specialize (IH Hds (10 * acc + digit_value c)).
    rewrite length_cons, Nat2Z.inj_succ, Z.pow_succ_r by lia.
    assert (0 < 10 ^ Z.of_nat (length ds)) by (apply Z.pow_pos_nonneg; lia).
    nia.
Qed.

End text_facts.

(** ** The regular expressions *)

Section regex_facts.

Implicit Types (line ds rest : text).

Lemma ord_tab_eq c : (ord c =? ord tab)%N = true → c = tab.
Proof.
  intros H%N.eqb_eq. unfold ord in H.
  by rewrite <- (ascii_N_embedding c), H.
Qed.

Lemma year_widths_spec k : In k year_widths ↔ (1 ≤ k ≤ 4)%nat.
Proof. unfold year_widths. simpl. lia. Qed.

Lemma digits_at_start_inv k line :
  digits_at_start k line = true →
  line = take k line ++ drop k line ∧ length (take k line) = k
  ∧ forallb is_digit (take k line) = true.
Proof.
  unfold digits_at_start. intros [Hlen Hds]%andb_true_iff.
  apply Nat.eqb_eq in Hlen. by rewrite take_drop.
Qed.

Lemma digits_at_start_app ds rest :
  forallb is_digit ds = true →
  digits_at_start (length ds) (ds ++ rest) = true.
Proof.
  intros Hds. unfold digits_at_start.
  rewrite take_app_length, Nat.eqb_refl. by rewrite Hds.
Qed.

(** A longer alternative runs into the character after the number. *)
Lemma digits_at_start_longer k ds c rest :
  is_digit c = false → (length ds < k)%nat →
  digits_at_start k (ds ++ c :: rest) = false.
Proof.
  intros Hc Hk. unfold digits_at_start.
  apply andb_false_iff. right.
  replace k with (length ds + S (k - length ds - 1))%nat by lia.
  rewrite take_app_add. simpl.
  rewrite forallb_app. simpl. rewrite Hc.
  by rewrite andb_false_r.
Qed.

Lemma match_year_tab_iff line :
  match_year_tab line = true ↔ begins_year_tab line.
Proof.
  unfold match_year_tab, begins_year_tab, year_then. split.
  - intros (k & Hk & H)%existsb_exists.
    apply year_widths_spec in Hk.
    apply andb_true_iff in H as [Hds Htab].
    apply digits_at_start_inv in Hds as (Hline & Hlen & Hds).
    destruct (drop k line) as [|c rest] eqn:Hdrop; [done|].
    apply ord_tab_eq in Htab as ->.
    exists (take k line), rest. by rewrite Hlen.
  - intros (ds & rest & -> & Hlen & Hds).
    apply existsb_exists. exists (length ds). split.
    + by apply year_widths_spec.
    + rewrite digits_at_start_app by done.
      rewrite drop_app_length. done.
Qed.

Lemma split_year_tab ds rest :
  forallb is_digit ds = true →
  split tab (ds ++ tab :: rest) = ds :: split tab rest.
Proof.
  induction ds as [|c ds IH]; intros Hds; [done|].
  cbn [forallb] in Hds. apply andb_true_iff in Hds as [Hc Hds].
  rewrite <- app_comm_cons. cbn [split].
  by rewrite (digit_not_tab c Hc), (IH Hds).
Qed.

Lemma match_spaces_digits_inv rest g2 :
  match_spaces_digits rest = Some g2 →
  ∃ ws rest',
    rest = ws ++ g2 ++ rest' ∧ ws ≠ [] ∧ forallb is_space ws = true ∧
    g2 ≠ [] ∧ forallb is_digit g2 = true ∧
    match rest' with [] => True | c :: _ => is_digit c = false end.
Proof.
  unfold match_spaces_digits.
  destruct (take_while is_space rest) as [|w ws] eqn:Hws; [done|].
  destruct (take_while is_digit (drop_while is_space rest))
    as [|d ds] eqn:Hds; [done|].
  intros [= <-].
  exists (w :: ws), (drop_while is_digit (drop_while is_space rest)).
  rewrite <- Hws, <- Hds. repeat split.
  - by rewrite !take_drop_while.
  - by rewrite Hws.
  - apply forallb_take_while.
  - by rewrite Hds.
  - apply forallb_take_while.
  - destruct (drop_while is_digit (drop_while is_space rest))
      as [|c r] eqn:Hr; [done|].
    apply (head_drop_while is_digit (drop_while is_space rest)).
    by rewrite Hr.
Qed.

Lemma match_spaces_digits_app ws ds2 rest :
  ws ≠ [] → forallb is_space ws = true →
  ds2 ≠ [] → forallb is_digit ds2 = true →
  match rest with [] => True | c :: _ => is_digit c = false end →
  match_spaces_digits (ws ++ ds2 ++ rest) = Some ds2.
Proof.
  intros Hws Hsp Hds2 Hdg Hrest. unfold match_spaces_digits.
  assert (Hstop : take_while is_space (ds2 ++ rest) = []).
  { apply take_while_stop. destruct ds2 as [|d ds2]; [done|].
    simpl in *. apply andb_true_iff in Hdg as [Hd _].
    by apply digit_not_space. }
  rewrite take_while_app, Hstop, app_nil_r by done.
  destruct ws as [|w ws]; [done|].
  rewrite drop_while_app by done.
  rewrite drop_while_stop.
  2:{ destruct ds2 as [|d ds2]; [done|]. simpl in *.
      apply andb_true_iff in Hdg as [Hd _]. by apply digit_not_space. }
  rewrite take_while_app, (take_while_stop is_digit rest), app_nil_r
    by done.
  by destruct ds2.
Qed.

Lemma match_year_space_at_inv widths line g1 g2 :
  match_year_space_at widths line = Some (g1, g2) →
  ∃ k, In k widths ∧ digits_at_start k line = true
       ∧ g1 = take k line
       ∧ match_spaces_digits (drop k line) = Some g2.
Proof.
  induction widths as [|k widths IH]; simpl; [done|].
  destruct (digits_at_start k line) eqn:Hk.
  - destruct (match_spaces_digits (drop k line)) as [g|] eqn:Hm.
    + intros [= <- <-]. exists k. auto.
    + intros (k' & ? & ?)%IH. exists k'. tauto.
  - intros (k' & ? & ?)%IH. exists k'. tauto.
Qed.

Lemma match_year_space_inv line g1 g2 :
  match_year_space line = Some (g1, g2) →
  ∃ ws rest,
    year_then line g1 (ws ++ g2 ++ rest) ∧
    ws ≠ [] ∧ forallb is_space ws = true ∧
    g2 ≠ [] ∧ forallb is_digit g2 = true ∧
    match rest with [] => True | c :: _ => is_digit c = false end.
Proof.
  intros (k & Hk & Hds & -> & Hm)%match_year_space_at_inv.
  apply year_widths_spec in Hk.
  apply digits_at_start_inv in Hds as (Hline & Hlen & Hds).
  apply match_spaces_digits_inv in Hm
    as (ws & rest & Hdrop & Hws & Hsp & Hg2 & Hdg & Hrest).
  exists ws, rest. unfold year_then.
  rewrite <- Hdrop, Hlen. auto 10.
Qed.

Lemma match_year_space_app ds ws ds2 rest :
  (1 ≤ length ds ≤ 4)%nat → forallb is_digit ds = true →
  ws ≠ [] → forallb is_space ws = true →
  ds2 ≠ [] → forallb is_digit ds2 = true →
  match rest with [] => True | c :: _ => is_digit c = false end →
  match_year_space (ds ++ ws ++ ds2 ++ rest) = Some (ds, ds2).
Proof.
  intros Hlen Hds Hws Hsp Hds2 Hdg Hrest.
  pose proof (match_spaces_digits_app ws ds2 rest Hws Hsp Hds2 Hdg Hrest)
    as Hm.
  destruct ws as [|w ws]; [done|].
  assert (Hw : is_digit w = false).
  { simpl in Hsp. apply andb_true_iff in Hsp as [Hw _].
    destruct (is_digit w) eqn:E; [|done].
    apply digit_not_space in E. congruence. }
  assert (Hlong : ∀ k, (length ds < k)%nat →
    digits_at_start k (ds ++ (w :: ws) ++ ds2 ++ rest) = false).
  { intros k Hk. by apply digits_at_start_longer. }
  set (line := ds ++ (w :: ws) ++ ds2 ++ rest) in *.
  assert (Hhere : ∀ k, k = length ds →
    digits_at_start k line = true
    ∧ match_spaces_digits (drop k line) = Some ds2
    ∧ take k line = ds).
  { intros k ->. unfold line.
    by rewrite digits_at_start_app, drop_app_length, take_app_length. }
  unfold match_year_space, year_widths. cbn [match_year_space_at].
  destruct (decide (length ds = 4%nat)) as [E4|N4].
  { by destruct (Hhere 4%nat) as (-> & -> & ->). }
  rewrite (Hlong 4%nat) by lia.
  destruct (decide (length ds = 3%nat)) as [E3|N3].
  { by destruct (Hhere 3%nat) as (-> & -> & ->). }
  rewrite (Hlong 3%nat) by lia.
  destruct (decide (length ds = 2%nat)) as [E2|N2].
  { by destruct (Hhere 2%nat) as (-> & -> & ->). }
  rewrite (Hlong 2%nat) by lia.
  destruct (Hhere 1%nat) as (-> & -> & ->); [lia|done].
Qed.

End regex_facts.

(** ** [parse_il_ts_file] *)

Section parse_facts.

Implicit Types (line ds rest : text) (yc : Z * Z).

Lemma split_length sep s : (1 ≤ length (split sep s))%nat.
Proof.
  induction s as [|c s IH]; cbn [split]; [simpl; lia|].
  destruct (ord c =? ord sep)%N; [simpl; lia|].
  destruct (split sep s); simpl in *; lia.
Qed.

Lemma year_then_nonempty line ds rest : year_then line ds rest → line ≠ [].
Proof. intros (-> & Hlen & _). destruct ds; simpl in *; [lia|done]. Qed.

Lemma year_then_int line ds rest :
  year_then line ds rest → int ds = Some (digits_value ds).
Proof.
  intros (_ & Hlen & Hds). apply int_digits_value; [done|].
  destruct ds; simpl in *; [lia|done].
Qed.

Lemma tab_pair_begins line yc : tab_pair line yc → begins_year_tab line.
Proof. intros (ds & rest & H & _). by exists ds, rest. Qed.

(** What the first branch of the loop body computes. *)
Lemma tab_branch line ds rest :
  year_then line ds (tab :: rest) →
  (2 <=? length (split tab line))%nat = true
  ∧ int (nth 0 (split tab line) []) = Some (digits_value ds)
  ∧ nth 1 (split tab line) [] = nth 0 (split tab rest) [].
Proof.
  intros Hy. pose proof (year_then_int _ _ _ Hy) as Hint.
  destruct Hy as (-> & Hlen & Hds).
  rewrite split_year_tab by done. repeat split; [|done].
  apply Nat.leb_le. pose proof (split_length tab rest). simpl. lia.
Qed.

Lemma tab_pair_unique line ds rest yc :
  year_then line ds (tab :: rest) → tab_pair line yc →
  yc.1 = digits_value ds ∧ int (nth 0 (split tab rest) []) = Some yc.2.
Proof.
  intros Hy (ds' & rest' & Hy' & Hyear & Hcount).
  destruct (tab_branch _ _ _ Hy) as (_ & H0 & H1).
  destruct (tab_branch _ _ _ Hy') as (_ & H0' & H1').
  split; [congruence|]. by rewrite <- H1, H1'.
Qed.

(** The loop body never raises, and appends a pair for exactly the
    accepted lines. *)
Lemma parse_line_spec line :
  ∃ o, parse_line line = Ok o
       ∧ ∀ yc, o = Some yc ↔ accepted_pair (strip line) yc.
Proof.
  unfold parse_line, accepted_pair. generalize (strip line) as l.
  intros l. destruct l as [|c0 l0] eqn:Hl.
  { exists None. split; [done|]. intros yc. split; [done|].
    intros [(ds & rest & H & _)|[_ (ds & ? & ? & rest & H & _)]];
      by apply year_then_nonempty in H. }
  rewrite <- Hl. clear Hl c0 l0.
  destruct (match_year_tab l) eqn:Htab.
  - apply match_year_tab_iff in Htab as Hbegin.
    destruct Hbegin as (ds & rest & Hy).
    cbn zeta. destruct (tab_branch _ _ _ Hy) as (-> & -> & ->).
    destruct (int (nth 0 (split tab rest) [])) as [count|] eqn:Hcount.
    + exists (Some (digits_value ds, count)). split; [done|].
      intros yc. split.
      * intros [= <-]. left. by exists ds, rest.
      * intros [Htp|[Hno _]].
        -- destruct (tab_pair_unique _ _ _ _ Hy Htp) as [H1 H2].
           destruct yc as [y c]. simpl in *. congruence.
        -- destruct Hno. by exists ds, rest.
    + exists None. split; [done|]. intros yc. split; [done|].
      intros [Htp|[Hno _]].
      * destruct (tab_pair_unique _ _ _ _ Hy Htp) as [_ H2]. congruence.
      * destruct Hno. by exists ds, rest.
  - assert (Hno : ¬ begins_year_tab l).
    { intros H%match_year_tab_iff. congruence. }
    destruct (match_year_space l) as [[g1 g2]|] eqn:Hsp.
    + apply match_year_space_inv in Hsp as Hinv.
      destruct Hinv as (ws & rest & Hy & Hws & Hsps & Hg2 & Hdg & Hrest).
      rewrite (year_then_int _ _ _ Hy), (int_digits_value g2) by done.
      exists (Some (digits_value g1, digits_value g2)). split; [done|].
      intros yc. split.
      * intros [= <-]. right. split; [done|].
        exists g1, ws, g2, rest. auto 10.
      * intros [Htp|[_ Hspace]]; [by apply tab_pair_begins in Htp|].
        destruct Hspace as (ds & ws' & ds2 & rest' & (-> & Hlen & Hds)
                            & ? & ? & ? & ? & ? & ->).
        rewrite match_year_space_app in Hsp by done.
        by injection Hsp as -> ->.
    + exists None. split; [done|]. intros yc. split; [done|].
      intros [Htp|[_ Hspace]]; [by apply tab_pair_begins in Htp|].
      destruct Hspace as (ds & ws' & ds2 & rest' & (-> & Hlen & Hds)
                          & ? & ? & ? & ? & ? & ->).
      by rewrite match_year_space_app in Hsp.
Qed.

Lemma parse_lines_spec lines rows :
  ∃ outs,
    parse_lines lines rows = Ok (rows ++ omap id outs)
    ∧ Forall2 (λ line o, ∀ yc, o = Some yc ↔ accepted_pair (strip line) yc)
        lines outs.
Proof.
  revert rows. induction lines as [|line lines IH]; intros rows.
  - exists []. simpl. by rewrite app_nil_r.
  - destruct (parse_line_spec line) as (o & Hline & Ho).
    cbn [parse_lines]. rewrite Hline. cbn [mbind result_bind].
    destruct o as [yc|].
    + destruct (IH (rows ++ [yc])) as (outs & -> & Houts).
      exists (Some yc :: outs). split; [|by constructor].
      simpl. by rewrite <- app_assoc.
    + destruct (IH rows) as (outs & -> & Houts).
      exists (None :: outs). split; [done|by constructor].
Qed.

Lemma accepted_pair_year line yc :
  accepted_pair line yc → 0 ≤ yc.1 ≤ 9999.
Proof.
  assert (Hb : ∀ ds, (1 ≤ length ds ≤ 4)%nat →
            forallb is_digit ds = true → 0 ≤ digits_value ds ≤ 9999).
  { intros ds Hlen Hds. pose proof (digits_value_bound ds Hds) as Hv.
    assert (10 ^ Z.of_nat (length ds) ≤ 10 ^ 4)
      by (apply Z.pow_le_mono_r; lia).
    lia. }
  intros [(ds & rest & (_ & Hlen & Hds) & -> & _)
         |[_ (ds & ? & ? & rest & (_ & Hlen & Hds) & ? & ? & ? & ? & ? & ->)]];
    by apply Hb.
Qed.

(** An accepted line has at most four digits in front. *)
Lemma accepted_pair_digits line yc :
  accepted_pair line yc →
  (length (take_while is_digit line) ≤ 4)%nat.
Proof.
  assert (Hb : ∀ ds c rest, (1 ≤ length ds ≤ 4)%nat →
            forallb is_digit ds = true → is_digit c = false →
            (length (take_while is_digit (ds ++ c :: rest)) ≤ 4)%nat).
  { intros ds c rest Hlen Hds Hc.
    rewrite take_while_app by done. simpl. rewrite Hc.
    rewrite app_nil_r. lia. }
  intros [(ds & rest & (-> & Hlen & Hds) & _)
         |[_ (ds & ws & ? & rest & (-> & Hlen & Hds) & Hws & Hsp & _)]].
  - by apply Hb.
  - destruct ws as [|w ws]; [done|]. simpl in Hsp.
    apply andb_true_iff in Hsp as [Hw _]. apply Hb; [done..|].
    destruct (is_digit w) eqn:E; [|done].
    apply digit_not_space in E. congruence.
Qed.

End parse_facts.



(** C10.  Every pair [parse_il_ts_file] returns has a year between 0 and
    9999, and a line with five or more digits in front yields no pair. *)
Theorem parse_il_ts_file_year_range (content : text) :
  ∃ outs : list (option (Z * Z)),
    parse_il_ts_file content = Ok (omap id outs)
    ∧ Forall (λ yc, 0 ≤ yc.1 ≤ 9999) (omap id outs)
    ∧ Forall2 (λ line o,
        (5 ≤ length (take_while is_digit (strip line)))%nat → o = None)
        (splitlines (strip content)) outs.
Proof.
  unfold parse_il_ts_file.
  destruct (parse_lines_spec (splitlines (strip content)) [])
    as (outs & Hparse & Houts).
  exists outs. split; [done|]. clear Hparse.
  induction Houts as [|line o lines outs Ho _ [IH1 IH2]];
    [by split; constructor|].
  split.
  - destruct o as [yc|]; simpl; [|done]. constructor; [|done].
    eapply accepted_pair_year. by apply Ho.
  - constructor; [|done]. intros Hlen. destruct o as [yc|]; [|done].
    assert (H : accepted_pair (strip line) yc) by by apply Ho.
    apply accepted_pair_digits in H. lia.
Qed.

(** ** Orders on keys *)

Section key_order.

Context {K : Type} `{Lexico K, !StrictOrder (@lexico K _),
                     !TrichotomyT (@lexico K _)}.

#[global] Instance key_le_refl : Reflexive (@key_le K _).
Proof. intros k. by left. Qed.

#[global] Instance key_le_trans : Transitive (@key_le K _).
Proof.
  intros k1 k2 k3 [->|H12] [->|H23]; unfold key_le; auto.
  right. by transitivity k2.
Qed.

#[global] Instance key_le_total : Total (@key_le K _).
Proof.
  intros k1 k2. unfold key_le.
  destruct (trichotomyT lexico k1 k2) as [[?|?]|?]; auto.
Qed.

(** The same relation, through a key function. *)
#[global] Instance key_le_on_trans {A} (f : A → K) :
  Transitive (λ a b, key_le (f a) (f b)).
Proof. intros a b c. apply key_le_trans. Qed.

#[global] Instance key_le_on_total {A} (f : A → K) :
  Total (λ a b, key_le (f a) (f b)).
Proof. intros a b. apply key_le_total. Qed.

End key_order.

(** ** Grouped sums *)

Section groupby_facts.

Context {K : Type} `{Countable K}.
Implicit Types (key : row → K) (df : list row) (k : K).

Lemma group_total_cons key r df k :
  group_total key (r :: df) k
  = (if decide (key r = k) then Record_Count r else 0)
    + group_total key df k.
Proof.
  unfold group_total. rewrite filter_cons.
  destruct (decide (key r = k)); [by rewrite fmap_cons|].
  by rewrite Z.add_0_l.
Qed.

Lemma group_total_absent key df k :
  k ∉ key <$> df → group_total key df k = 0.
Proof.
  induction df as [|r df IH]; [done|].
  rewrite fmap_cons, not_elem_of_cons. intros [Hne Hk].
  rewrite group_total_cons, IH by done.
  by rewrite decide_False by done.
Qed.

Lemma groupby_sum_from key df (sums : gmap K Z) k :
  foldl (λ sums r,
           <[key r := default 0 (sums !! key r) + Record_Count r]> sums)
        sums df !! k
  = if decide (k ∈ key <$> df)
    then Some (default 0 (sums !! k) + group_total key df k)
    else sums !! k.
Proof.
  revert sums. induction df as [|r df IH]; intros sums; cbn [foldl].
  - destruct (decide (k ∈ key <$> [])) as [Hin|_]; [|done].
    by apply elem_of_nil in Hin.
  - rewrite IH, group_total_cons.
    destruct (decide (key r = k)) as [<-|Hne].
    + rewrite lookup_insert_eq.
      destruct (decide (key r ∈ key <$> r :: df)) as [_|Hnin].
      2:{ destruct Hnin. rewrite fmap_cons. apply list_elem_of_here. }
      destruct (decide (key r ∈ key <$> df)) as [Hin|Hnin]; f_equal.
      * simpl. lia.
      * rewrite group_total_absent by done. simpl. lia.
    + rewrite lookup_insert_ne by done. rewrite Z.add_0_l.
      destruct (decide (k ∈ key <$> df)) as [Hin|Hnin];
        destruct (decide (k ∈ key <$> r :: df)) as [Hin'|Hnin'];
        try done.
      * destruct Hnin'. rewrite fmap_cons. by apply list_elem_of_further.
      * rewrite fmap_cons in Hin'.
        apply elem_of_cons in Hin' as [?|?]; congruence.
Qed.

Lemma groupby_sum_lookup key df k :
  groupby_sum key df !! k
  = if decide (k ∈ key <$> df) then Some (group_total key df k) else None.
Proof.
  unfold groupby_sum. rewrite groupby_sum_from, lookup_empty. simpl.
  case_decide; [f_equal; lia|done].
Qed.

(** [fill_value=0]: a group with no row has sum 0 either way. *)
Lemma groupby_sum_default key df k :
  default 0 (groupby_sum key df !! k) = group_total key df k.
Proof.
  rewrite groupby_sum_lookup. case_decide; [done|].
  by rewrite group_total_absent.
Qed.

Lemma dom_groupby_sum key df k :
  k ∈ dom (groupby_sum key df) ↔ k ∈ key <$> df.
Proof.
  rewrite elem_of_dom, groupby_sum_lookup.
  case_decide; split; try done; try (by eexists); by intros [? ?].
Qed.

End groupby_facts.

(** ** Sums over groups *)

Section sums.

Lemma total_cons (x : Z) (l : list Z) : total (x :: l) = x + total l.
Proof. done. Qed.

Lemma total_app (l1 l2 : list Z) : total (l1 ++ l2) = total l1 + total l2.
Proof. unfold total. induction l1 as [|x l1 IH]; simpl; lia. Qed.


Context {K : Type} `{Countable K}.
Implicit Types (key : row → K) (df : list row) (ks : list K).




Context `{Lexico K, !StrictOrder (@lexico K _), !TrichotomyT (@lexico K _)}.

Lemma sorted_items_perm (sums : gmap K Z) :
  sorted_items sums ≡ₚ map_to_list sums.
Proof. apply merge_sort_Permutation. Qed.



End sums.

(** ** The summary view and the chart aggregation *)





(** ** The pivot view *)

Section pivot_facts.

Implicit Types (df : list row) (g : Z * Z * string) (c : string).


Lemma unstack_index_NoDup df :
  NoDup (unstack_index (groupby_sum pivot_key df)).
Proof.
  unfold unstack_index. rewrite merge_sort_Permutation.
  apply NoDup_elements.
Qed.

Lemma unstack_columns_elem df c :
  c ∈ unstack_columns (groupby_sum pivot_key df) ↔ c ∈ Search_Level <$> df.
Proof.
  unfold unstack_columns. rewrite merge_sort_Permutation, elem_of_elements.
  rewrite elem_of_map, list_elem_of_fmap. split.
  - intros ([g c'] & -> & Hin). apply dom_groupby_sum in Hin.
    apply list_elem_of_fmap in Hin as (r & [= -> ->] & Hr). eauto.
  - intros (r & -> & Hr). exists (pivot_key r). split; [done|].
    apply dom_groupby_sum. by apply list_elem_of_fmap_2.
Qed.

Lemma pivot_columns_levels df :
  pivot_columns (pivot_table df)
  = filter (λ c, c ∈ Search_Level <$> df) scope_columns.
Proof. apply list_filter_iff. intros c. apply unstack_columns_elem. Qed.

Lemma pivot_rows_cells df :
  pivot_rows (pivot_table df)
  = (λ g, (g, (λ c, group_total pivot_key df (g, c))
               <$> pivot_columns (pivot_table df)))
      <$> unstack_index (groupby_sum pivot_key df).
Proof.
  cbn [pivot_table pivot_rows pivot_columns].
  apply list_fmap_ext. intros _ g _. f_equal.
  apply list_fmap_ext. intros _ c _. apply groupby_sum_default.
Qed.





End pivot_facts.



(** ** [main] *)

Section main_facts.

Implicit Types (dir : directory) (fs : files) (r : row).

Lemma topic_ids_sorted :
  merge_sort Z.le (elements (dom TOPIC_MAP)) = [6; 7; 8; 9].
Proof. by vm_compute. Qed.

Lemma topic_ids_dom (topic_id : Z) :
  topic_id ∈ dom TOPIC_MAP ↔ topic_id ∈ [6; 7; 8; 9].
Proof.
  rewrite <- topic_ids_sorted, merge_sort_Permutation.
  by rewrite elem_of_elements.
Qed.

Lemma parse_il_ts_file_returns (content : text) :
  ∃ rows, parse_il_ts_file content = Ok rows.
Proof.
  unfold parse_il_ts_file.
  destruct (parse_lines_spec (splitlines (strip content)) [])
    as (outs & -> & _). eauto.
Qed.

Lemma append_topics_rows dir (topic_ids : list Z) (rows : list row) :
  append_topics dir topic_ids rows
  = Ok (rows ++ concat (topic_rows dir <$> topic_ids)).
Proof.
  revert rows. induction topic_ids as [|topic_id topic_ids IH];
    intros rows; cbn [append_topics].
  - by rewrite app_nil_r.
  - rewrite fmap_cons. cbn [concat]. unfold topic_rows at 1.
    destruct (glob dir topic_id) as [|path rest]; [apply IH|].
    destruct (parse_il_ts_file_returns path) as (pairs & ->).
    cbn [mbind result_bind]. by rewrite IH, app_assoc.
Qed.

Lemma appended_rows dir :
  appended dir = Ok (concat (topic_rows dir <$> [6; 7; 8; 9])).
Proof.
  unfold appended. by rewrite topic_ids_sorted, append_topics_rows.
Qed.


Lemma elem_of_concat {A} (x : A) (ls : list (list A)) :
  x ∈ concat ls ↔ ∃ l, x ∈ l ∧ l ∈ ls.
Proof.
  rewrite list_elem_of_In, in_concat. split.
  - intros (l & Hl & Hx). exists l. by rewrite !list_elem_of_In.
  - intros (l & Hx & Hl). exists l. by rewrite <- !list_elem_of_In.
Qed.




End main_facts.

(** C6.  [main] never fails while collecting rows, and the rows it appends
    are exactly these: for a topic ID among 6, 7, 8, 9 with a matching
    file, and a (year, count) pair parsed from the first match, the row
    with that Year and Record_Count, the topic's ID, the topic map's name
    for the ID, Search_Level 'TS' and Search_Level_Description
    'Title + Abstract + Keywords'. *)
Theorem appended_rows_from_pairs (IL_TS_DIR : directory) :
  ∃ df_new : list row,
    appended IL_TS_DIR = Ok df_new
    ∧ ∀ r, r ∈ df_new ↔
        ∃ topic_id name path others pairs yc,
          topic_id ∈ [6; 7; 8; 9]
          ∧ TOPIC_MAP !! topic_id = Some name
          ∧ glob IL_TS_DIR topic_id = path :: others
          ∧ parse_il_ts_file path = Ok pairs
          ∧ yc ∈ pairs
          ∧ r = {| Year := yc.1; Search_Topic_ID := topic_id;
                   Search_Topic := name; Search_Level := "TS";
                   Search_Level_Description := "Title + Abstract + Keywords";
                   Record_Count := yc.2 |}.
Proof.
  eexists. split; [apply appended_rows|].
  intros r. rewrite elem_of_concat. split.
  - intros (rows & Hr & Hrows).
    apply list_elem_of_fmap in Hrows as (topic_id & -> & Hid).
    unfold topic_rows in Hr.
    destruct (glob IL_TS_DIR topic_id) as [|path others] eqn:Hglob;
      [by apply elem_of_nil in Hr|].
    destruct (parse_il_ts_file path) as [pairs|e] eqn:Hparse;
      [|by apply elem_of_nil in Hr].
    apply list_elem_of_fmap in Hr as (yc & -> & Hyc).
    assert (Hname : is_Some (TOPIC_MAP !! topic_id)).
    { by apply elem_of_dom, topic_ids_dom. }
    destruct Hname as [name Hname].
    exists topic_id, name, path, others, pairs, yc.
    unfold new_row. rewrite Hname. auto 10.
  - intros (topic_id & name & path & others & pairs & yc
            & Hid & Hname & Hglob & Hparse & Hyc & ->).
    exists (topic_rows IL_TS_DIR topic_id).
    split; [|by apply list_elem_of_fmap_2].
    unfold topic_rows. rewrite Hglob, Hparse.
    apply list_elem_of_fmap. exists yc. split; [|done].
    unfold new_row. by rewrite Hname.
Qed.

(** C8.  When no pair is parsed from any topic's file, because the topic
    has no matching file or its first match yields no pair, [main] leaves
    the detailed, pivot and summary files as they were. *)
Theorem main_no_rows_no_write (IL_TS_DIR : directory) (fs : files) :
  Forall (λ topic_id,
            match glob IL_TS_DIR topic_id with
            | [] => True
            | path :: _ => parse_il_ts_file path = Ok []
            end) [6; 7; 8; 9] →
  let fs' := (main IL_TS_DIR fs).1 in
  MASTER_DETAILED fs' = MASTER_DETAILED fs
  ∧ MASTER_PIVOT fs' = MASTER_PIVOT fs
  ∧ MASTER_SUMMARY fs' = MASTER_SUMMARY fs.
Proof.
  intros Hnone.
  assert (Happ : appended IL_TS_DIR = Ok []).
  { rewrite appended_rows. f_equal.
    induction Hnone as [|topic_id topic_ids Hid _ IH]; [done|].
    rewrite fmap_cons. cbn [concat]. rewrite IH, app_nil_r.
    unfold topic_rows. destruct (glob IL_TS_DIR topic_id); [done|].
    by rewrite Hid. }
  destruct fs as [[df_master|] bak pivot summ]; unfold main; simpl.
  - by rewrite Happ.
  - done.
Qed.

Lemma main_no_rows_no_write_witness :
  Forall (λ topic_id,
            match glob [] topic_id with
            | [] => True
            | path :: _ => parse_il_ts_file path = Ok []
            end) [6; 7; 8; 9]
  ∧ MASTER_DETAILED (main [] (files_with [sample_row 1 "TS" 3])).1
    = Some [sample_row 1 "TS" 3].
Proof.
  assert (H : Forall (λ topic_id,
            match glob [] topic_id with
            | [] => True
            | path :: _ => parse_il_ts_file path = Ok []
            end) [6; 7; 8; 9]) by (repeat constructor).
  split; [exact H|].
  exact (proj1 (main_no_rows_no_write []
                  (files_with [sample_row 1 "TS" 3]) H)).
Defined.







(** * Further properties of the ingestion script *)

(** ** Row order and the views *)

Section row_order.

Lemma total_perm (l1 l2 : list Z) : l1 ≡ₚ l2 → total l1 = total l2.
Proof.
  induction 1 as [|x l1 l2 _ IH|x y l|l1 l2 l3 _ IH1 _ IH2];
    rewrite ?total_cons; lia.
Qed.

Context {K : Type} `{Countable K}.

Lemma group_total_perm (key : row → K) (df df' : list row) k :
  df ≡ₚ df' → group_total key df k = group_total key df' k.
Proof. intros Hp. unfold group_total. apply total_perm. by rewrite Hp. Qed.

Lemma groupby_sum_perm (key : row → K) (df df' : list row) :
  df ≡ₚ df' → groupby_sum key df = groupby_sum key df'.
Proof.
  intros Hp. apply map_eq. intros k. rewrite !groupby_sum_lookup.
  rewrite (group_total_perm key df df' k Hp).
  destruct (decide (k ∈ key <$> df)) as [Hk|Hk];
    destruct (decide (k ∈ key <$> df')) as [Hk'|Hk']; try done;
    exfalso; [apply Hk'; by rewrite <- Hp|apply Hk; by rewrite Hp].
Qed.

End row_order.

Lemma views_perm (df df' : list row) :
  df ≡ₚ df' → pivot_table df = pivot_table df' ∧ summary df = summary df'.
Proof.
  intros Hp. unfold pivot_table, summary.
  by rewrite !(groupby_sum_perm _ df df' Hp).
Qed.

(** The pivot view, the summary view and the dashboard's aggregate depend
    on the rows of the detailed table only, not on the order they come
    in. *)
Theorem views_row_order (df df' : list row) :
  df ≡ₚ df' →
  pivot_table df = pivot_table df'
  ∧ summary df = summary df'
  ∧ agg df = agg df'.
Proof.
  intros Hp. destruct (views_perm df df' Hp) as [-> ->].
  unfold agg. by rewrite (groupby_sum_perm _ df df' Hp).
Qed.

Lemma views_row_order_witness :
  pivot_table [sample_row 1 "KW" 4; sample_row 7 "TS" 3]
  = pivot_table [sample_row 7 "TS" 3; sample_row 1 "KW" 4].
Proof.
  apply (views_row_order [sample_row 1 "KW" 4; sample_row 7 "TS" 3]
           [sample_row 7 "TS" 3; sample_row 1 "KW" 4]).
  apply perm_swap.
Defined.

(** ** The order of the rows of the views *)

Section ascending.

Context {K : Type} `{Lexico K, !StrictOrder (@lexico K _),
                     !TrichotomyT (@lexico K _)}.

Lemma sorted_distinct_ascending {A} (f : A → K) (l : list A) :
  StronglySorted (λ a b, key_le (f a) (f b)) l → NoDup (f <$> l) →
  StronglySorted (λ a b, lexico (f a) (f b)) l.
Proof.
  induction 1 as [|a l Hl IH Ha]; intros Hnd; constructor.
  - apply IH. rewrite fmap_cons in Hnd. by apply NoDup_cons in Hnd as [_ ?].
  - rewrite fmap_cons in Hnd. apply NoDup_cons in Hnd as [Hnotin _].
    apply Forall_forall. intros b Hb.
    rewrite Forall_forall in Ha. destruct (Ha b Hb) as [Heq|Hlt]; [|done].
    exfalso. apply Hnotin. rewrite Heq. by apply list_elem_of_fmap_2.
Qed.

Context `{Countable K}.

Lemma sorted_items_ascending (sums : gmap K Z) :
  StronglySorted (λ a b, lexico a.1 b.1) (sorted_items sums).
Proof.
  apply (sorted_distinct_ascending fst).
  - apply (StronglySorted_merge_sort (λ a b : K * Z, key_le a.1 b.1)).
  - rewrite sorted_items_perm. apply NoDup_fst_map_to_list.
Qed.

End ascending.

(** The summary rows come in strictly ascending order of
    (Search_Topic_ID, Search_Topic, Search_Level), and the dashboard's
    aggregate in strictly ascending order of
    (Year, Search_Topic_ID, Search_Topic, Search_Level). *)
Theorem summary_ascending (df : list row) :
  StronglySorted (λ a b, lexico (summary_row_key a) (summary_row_key b))
    (summary df)
  ∧ StronglySorted (λ a b, lexico a.1 b.1) (agg df).
Proof.
  split; [|apply sorted_items_ascending].
  unfold summary.
  eapply StronglySorted_fmap;
    [|apply (sorted_items_ascending (groupby_sum summary_key df))].
  by intros [[[??]?]?] [[[??]?]?].
Qed.

(** The shape of the pivot view: its scope columns are among 'KW', 'TI',
    'TS' in that order, every row has one cell per scope column, and the
    rows come in strictly ascending order of
    (Year, Search_Topic_ID, Search_Topic). *)
Theorem pivot_table_shape (df : list row) :
  let p := pivot_table df in
  sublist (pivot_columns p) scope_columns
  ∧ Forall (λ gc, length gc.2 = length (pivot_columns p)) (pivot_rows p)
  ∧ StronglySorted lexico (pivot_rows p).*1.
Proof.
  cbn zeta. split; [|split].
  - rewrite pivot_columns_levels. apply sublist_filter.
  - rewrite pivot_rows_cells. apply Forall_fmap, Forall_forall.
    intros g _. simpl. by rewrite length_fmap.
  - rewrite pivot_rows_cells, <- list_fmap_compose.
    rewrite (list_fmap_ext _ id) by done. rewrite list_fmap_id.
    pose proof (sorted_distinct_ascending id
                  (unstack_index (groupby_sum pivot_key df))) as Hs.
    rewrite list_fmap_id in Hs. apply Hs; [|apply unstack_index_NoDup].
    apply (StronglySorted_merge_sort key_le).
Qed.

(** ** The two views, scope by scope *)




(** ** How [main] ends, and the backup *)


(** ** Running [main] again *)

Section main_again.

Implicit Types (dir : directory) (fs : files) (r : row).




End main_again.



(** ** Which files are read *)

(** The cases of a topic ID of the topic map. *)
Ltac topic_cases H :=
  apply topic_ids_dom in H;
  repeat (apply elem_of_cons in H; destruct H as [-> | H]);
  try (by apply elem_of_nil in H).

Section which_files.

Implicit Types (dir : directory) (fs : files).

Lemma main_appended dir dir' fs :
  appended dir = appended dir' → main dir fs = main dir' fs.
Proof. intros Happ. unfold main. by rewrite Happ. Qed.

Lemma topic_rows_first dir dir' (topic_id : Z) :
  head (glob dir topic_id) = head (glob dir' topic_id) →
  topic_rows dir topic_id = topic_rows dir' topic_id.
Proof.
  unfold topic_rows.
  destruct (glob dir topic_id), (glob dir' topic_id); intros Heq;
    simpl in Heq; by simplify_eq.
Qed.

Lemma glob_app dir1 dir2 (topic_id : Z) :
  glob (dir1 ++ dir2) topic_id = glob dir1 topic_id ++ glob dir2 topic_id.
Proof. unfold glob, directory. by rewrite filter_app, fmap_app. Qed.

Lemma glob_cons_other (f : string * text) dir (topic_id : Z) :
  glob_matches topic_id f.1 = false →
  glob (f :: dir) topic_id = glob dir topic_id.
Proof.
  intros Hf. unfold glob, directory.
  rewrite filter_cons_False; [done|]. by rewrite Hf.
Qed.

Lemma glob_matching (g : string * text) dir (topic_id : Z) :
  g ∈ dir → glob_matches topic_id g.1 = true → glob dir topic_id ≠ [].
Proof.
  intros Hg Hmatch Hnone.
  assert (Hin : g.2 ∈ glob dir topic_id).
  { unfold glob. apply list_elem_of_fmap_2. by apply list_elem_of_filter. }
  rewrite Hnone in Hin. by apply elem_of_nil in Hin.
Qed.

End which_files.

(** Of the files matching a topic's pattern only the first is read: a file
    that, for each topic 6 to 9 whose pattern it matches, comes after
    another file matching that pattern, has no effect on what [main] does;
    nor has a file that matches no topic's pattern. *)
Theorem main_first_match_only (dir1 dir2 : directory) (f : string * text)
    (fs : files) :
  (∀ topic_id, topic_id ∈ [6; 7; 8; 9] → glob_matches topic_id f.1 = true →
     ∃ g, g ∈ dir1 ∧ glob_matches topic_id g.1 = true) →
  main (dir1 ++ f :: dir2) fs = main (dir1 ++ dir2) fs.
Proof.
  intros Hshadow. apply main_appended. rewrite !appended_rows.
  f_equal. f_equal. apply list_fmap_ext. intros i topic_id Hid.
  apply list_elem_of_lookup_2 in Hid.
  apply topic_rows_first. rewrite !glob_app.
  destruct (glob_matches topic_id f.1) eqn:Hf.
  - destruct (Hshadow topic_id Hid Hf) as (g & Hg & Hmatch).
    pose proof (glob_matching g dir1 topic_id Hg Hmatch).
    by destruct (glob dir1 topic_id).
  - by rewrite glob_cons_other.
Qed.

Lemma main_first_match_only_witness :
  main (only_topic_6 ++ [("6_later.txt"%string, of_string "1999 1")])
       (files_with [sample_row 1 "KW" 4])
  = main only_topic_6 (files_with [sample_row 1 "KW" 4]).
Proof.
  rewrite <- (app_nil_r only_topic_6) at 2.
  apply (main_first_match_only only_topic_6 []
           ("6_later.txt"%string, of_string "1999 1")).
  intros topic_id Hid Hmatch.
  exists ("6_ionic_liquids.txt"%string,
          of_string "2020" ++ [tab] ++ of_string "5").
  split; [apply list_elem_of_here|].
  apply topic_ids_dom in Hid. revert Hmatch.
  by topic_cases Hid.
Defined.

(** No file is read for two topics: a file name matches the pattern of at
    most one of the topics of the topic map. *)
Theorem glob_matches_one_topic (name : string) (topic_id1 topic_id2 : Z) :
  topic_id1 ∈ dom TOPIC_MAP → topic_id2 ∈ dom TOPIC_MAP →
  glob_matches topic_id1 name = true → glob_matches topic_id2 name = true →
  topic_id1 = topic_id2.
Proof.
  unfold glob_matches. intros Hid1 Hid2 H1 H2.
  apply andb_prop in H1 as [[H1 _]%andb_prop _].
  apply andb_prop in H2 as [[H2 _]%andb_prop _].
  apply bool_decide_eq_true in H1, H2. revert H1 H2.
  generalize (of_string name). intros n.
  topic_cases Hid1; topic_cases Hid2; try done;
    vm_compute of_string; cbn [length]; intros ->; discriminate.
Qed.

Lemma glob_matches_one_topic_witness :
  glob_matches 6 "6_ionic_liquids.txt" = true ∧ (6 : Z) = 6.
Proof.
  split; [reflexivity|].
  apply (glob_matches_one_topic "6_ionic_liquids.txt" 6 6);
    solve [reflexivity | by apply topic_ids_dom; set_solver].
Defined.

(** ** Lines that give no pair, and the sign of a count *)

Section line_facts.

Lemma accepted_pair_leading_digit (line : text) (yc : Z * Z) :
  accepted_pair line yc →
  ∃ c rest, line = c :: rest ∧ is_digit c = true.
Proof.
  assert (Hyear : ∀ ds rest, year_then line ds rest →
            ∃ c rest', line = c :: rest' ∧ is_digit c = true).
  { intros [|c ds] rest (-> & Hlen & Hds); simpl in *; [lia|].
    apply andb_prop in Hds as [Hc _]. eauto. }
  intros [(ds & rest & Hy & _)|[_ (ds & ws & ds2 & rest & Hy & _)]]; eauto.
Qed.

Lemma space_pair_count (line : text) (yc : Z * Z) :
  space_pair line yc → 0 ≤ yc.2.
Proof.
  intros (ds & ws & ds2 & rest & _ & _ & _ & _ & Hds2 & _ & ->). simpl.
  by apply digits_value_bound.
Qed.

End line_facts.

(** Header and text lines are passed over: a file in which no line has a
    digit as its first character other than whitespace yields no pair. *)
Theorem parse_il_ts_file_no_leading_digit (content : text) :
  Forall (λ line, match strip line with
                  | c :: _ => is_digit c = false
                  | [] => True
                  end) (splitlines (strip content)) →
  parse_il_ts_file content = Ok [].
Proof.
  unfold parse_il_ts_file. intros Hlines.
  destruct (parse_lines_spec (splitlines (strip content)) [])
    as (outs & -> & Hall).
  f_equal. simpl. induction Hall as [|line o lines outs Ho _ IH]; [done|].
  apply Forall_cons in Hlines as [Hline Hlines].
  destruct o as [yc|]; [|by apply IH].
  exfalso.
  destruct (accepted_pair_leading_digit (strip line) yc) as (c & rest & Hc & Hd);
    [by apply Ho|].
  rewrite Hc in Hline. congruence.
Qed.

Lemma parse_il_ts_file_no_leading_digit_witness :
  parse_il_ts_file
    (of_string "Publication Years" ++ [tab] ++ of_string "Record Count"
     ++ [LF] ++ of_string "(12 results)")
  = Ok [].
Proof.
  apply parse_il_ts_file_no_leading_digit. by vm_compute; repeat constructor.
Defined.

(** A negative count can only come from a tab-separated line: when the
    pair parsed from a line has a count below zero, the line, stripped,
    begins with a number of one to four digits and a tab.  In the
    whitespace form the count is a run of digits. *)
Theorem parse_line_negative_count (line : text) (yc : Z * Z) :
  parse_line line = Ok (Some yc) → yc.2 < 0 → begins_year_tab (strip line).
Proof.
  intros Hparse Hneg.
  destruct (parse_line_spec line) as (o & Ho & Hspec).
  assert (Hacc : accepted_pair (strip line) yc).
  { apply Hspec. congruence. }
  destruct Hacc as [Htab|[_ Hspace]]; [by eapply tab_pair_begins|].
  apply space_pair_count in Hspace. lia.
Qed.

Lemma parse_line_negative_count_witness :
  parse_line (of_string "2020" ++ [tab] ++ of_string "-5")
  = Ok (Some (2020, -5))
  ∧ begins_year_tab (strip (of_string "2020" ++ [tab] ++ of_string "-5")).
Proof.
  assert (Hparse : parse_line (of_string "2020" ++ [tab] ++ of_string "-5")
                   = Ok (Some (2020, -5))) by (by vm_compute).
  split; [exact Hparse|].
  apply (parse_line_negative_count _ (2020, -5) Hparse). simpl. lia.
Defined.

(** ** The text of a file: surrounding whitespace, line endings *)

Section line_endings.

Implicit Types (s ws line acc : text) (lines : list text)
  (rows : list (Z * Z)).

Lemma same_rows_refl lines : same_rows lines lines.
Proof. by intros rows. Qed.

Lemma same_rows_trans lines1 lines2 lines3 :
  same_rows lines1 lines2 → same_rows lines2 lines3 → same_rows lines1 lines3.
Proof. intros H12 H23 rows. by rewrite H12. Qed.

Lemma same_rows_cons line line' lines lines' :
  strip line = strip line' → same_rows lines lines' →
  same_rows (line :: lines) (line' :: lines').
Proof.
  intros Hstrip Hlines rows. cbn [parse_lines].
  assert (Hline : parse_line line = parse_line line').
  { unfold parse_line. by rewrite Hstrip. }
  rewrite Hline. destruct (parse_line line') as [[yc|]|e]; cbn; auto.
Qed.

Lemma same_rows_blank line lines lines' :
  strip line = [] → same_rows lines lines' → same_rows (line :: lines) lines'.
Proof.
  intros Hstrip Hlines rows. cbn [parse_lines].
  unfold parse_line. rewrite Hstrip. cbn. apply Hlines.
Qed.

Lemma drop_while_all (p : ascii → bool) s :
  forallb p s = true → drop_while p s = [].
Proof.
  intros Hs. rewrite <- (app_nil_r s) at 1. by rewrite drop_while_app.
Qed.

Lemma strip_spaces ws : forallb is_space ws = true → strip ws = [].
Proof. intros Hws. unfold strip, lstrip. by rewrite drop_while_all. Qed.

Lemma strip_leading ws line :
  forallb is_space ws = true → strip (ws ++ line) = strip line.
Proof. intros Hws. unfold strip, lstrip. by rewrite drop_while_app. Qed.

Lemma forallb_rev {A} (p : A → bool) (l : list A) :
  forallb p (rev l) = forallb p l.
Proof.
  induction l as [|x l IH]; [done|]. cbn [rev].
  rewrite forallb_app, IH. cbn. destruct (p x), (forallb p l); done.
Qed.

Lemma rstrip_trailing ws line :
  forallb is_space ws = true → rstrip (line ++ ws) = rstrip line.
Proof.
  intros Hws. unfold rstrip. rewrite rev_app_distr, drop_while_app; [done|].
  by rewrite forallb_rev.
Qed.

Lemma lstrip_app line ws :
  forallb is_space ws = true →
  ∃ ws', lstrip (line ++ ws) = lstrip line ++ ws' ∧ forallb is_space ws' = true.
Proof.
  intros Hws. unfold lstrip. induction line as [|c line IH]; cbn [app drop_while].
  - exists []. split; [|done]. by rewrite drop_while_all.
  - destruct (is_space c); [apply IH|]. by exists ws.
Qed.

Lemma strip_trailing ws line :
  forallb is_space ws = true → strip (line ++ ws) = strip line.
Proof.
  intros Hws. unfold strip.
  destruct (lstrip_app line ws Hws) as (ws' & -> & Hws').
  by apply rstrip_trailing.
Qed.

Lemma linebreak_is_space (c : ascii) :
  is_linebreak c = true → is_space c = true.
Proof.
  unfold is_linebreak, is_space. generalize (ord c). intros n.
  rewrite !orb_true_iff, !andb_true_iff, !N.leb_le, !N.eqb_eq. lia.
Qed.

Lemma not_space_not_LF (c : ascii) :
  is_space c = false → (ord c =? 10)%N = false.
Proof.
  unfold is_space. generalize (ord c). intros n Hn.
  apply N.eqb_neq. intros ->. discriminate.
Qed.

(** Whitespace before the first character of a line makes no
    difference. *)
Lemma splitlines_from_indent s acc acc0 :
  forallb is_space acc0 = true →
  same_rows (splitlines_from (acc ++ acc0) s) (splitlines_from acc s).
Proof.
  intros Hacc0.
  assert (Hline : ∀ acc', strip (rev (acc' ++ acc0)) = strip (rev acc')).
  { intros acc'. rewrite rev_app_distr. apply strip_leading.
    by rewrite forallb_rev. }
  revert acc. induction s as [|c s IH]; intros acc; cbn [splitlines_from].
  - destruct acc as [|a acc].
    + destruct acc0 as [|a0 acc0]; [apply same_rows_refl|].
      apply same_rows_blank; [|apply same_rows_refl].
      apply strip_spaces. by rewrite forallb_rev.
    + cbn [app]. apply same_rows_cons; [|apply same_rows_refl].
      apply (Hline (a :: acc)).
  - destruct (is_linebreak c).
    + apply same_rows_cons; [apply Hline|apply same_rows_refl].
    + apply (IH (c :: acc)).
Qed.

(** Whitespace after the last line gives no row. *)
Lemma splitlines_from_trailing_spaces (n : nat) ws acc :
  (length ws ≤ n)%nat → forallb is_space ws = true →
  same_rows (splitlines_from acc ws) (splitlines_from acc []).
Proof.
  revert ws acc. induction n as [|n IH]; intros ws acc Hlen Hws.
  { destruct ws; [apply same_rows_refl|simpl in Hlen; lia]. }
  destruct ws as [|c ws]; [apply same_rows_refl|].
  cbn [forallb] in Hws. apply andb_prop in Hws as [Hc Hws].
  cbn [length] in Hlen. cbn [splitlines_from].
  destruct (is_linebreak c).
  - assert (Hrest : same_rows
      match ws with
      | d :: s'' =>
          if (ord c =? 13)%N && (ord d =? 10)%N
          then splitlines_from [] s'' else splitlines_from [] ws
      | [] => splitlines_from [] ws
      end []).
    { destruct ws as [|d ws']; [apply same_rows_refl|].
      cbn [forallb] in Hws. apply andb_prop in Hws as [Hd Hws'].
      cbn [length] in Hlen.
      destruct ((ord c =? 13)%N && (ord d =? 10)%N).
      - apply (IH ws' []); [lia|done].
      - apply (IH (d :: ws') []); [simpl; lia|]. cbn [forallb].
        by rewrite Hd. }
    destruct acc as [|a acc].
    + by apply same_rows_blank.
    + by apply same_rows_cons.
  - eapply same_rows_trans; [apply (IH ws (c :: acc)); [lia|done]|].
    cbn [splitlines_from]. destruct acc as [|a acc].
    + apply same_rows_blank; [|apply same_rows_refl].
      apply strip_spaces. cbn. by rewrite Hc.
    + apply same_rows_cons; [|apply same_rows_refl].
      cbn [rev]. apply strip_trailing. cbn. by rewrite Hc.
Qed.

(** Whitespace before the first line gives no row. *)
Lemma splitlines_from_leading_spaces (n : nat) ws acc s :
  (length ws ≤ n)%nat → forallb is_space ws = true →
  forallb is_space acc = true →
  match s with c :: _ => is_space c = false | [] => True end →
  same_rows (splitlines_from acc (ws ++ s)) (splitlines_from [] s).
Proof.
  revert ws acc. induction n as [|n IH]; intros ws acc Hlen Hws Hacc Hs.
  { destruct ws; [|simpl in Hlen; lia].
    apply (splitlines_from_indent s [] acc Hacc). }
  destruct ws as [|c ws];
    [apply (splitlines_from_indent s [] acc Hacc)|].
  cbn [forallb] in Hws. apply andb_prop in Hws as [Hc Hws].
  cbn [length] in Hlen. cbn [app splitlines_from].
  destruct (is_linebreak c).
  - apply same_rows_blank.
    { apply strip_spaces. by rewrite forallb_rev. }
    destruct ws as [|d ws'].
    + cbn [app]. destruct s as [|d s']; [apply same_rows_refl|].
      rewrite (not_space_not_LF d Hs), andb_false_r. apply same_rows_refl.
    + cbn [forallb] in Hws. apply andb_prop in Hws as [Hd Hws'].
      cbn [length] in Hlen. cbn [app].
      destruct ((ord c =? 13)%N && (ord d =? 10)%N).
      * apply (IH ws' []); [lia|done|done|done].
      * apply (IH (d :: ws') []); [simpl; lia| |done|done].
        cbn [forallb]. by rewrite Hd.
  - apply (IH ws (c :: acc)); [lia|done| |done]. cbn [forallb].
    by rewrite Hc.
Qed.

(** Whitespace after the text makes no difference. *)
Lemma splitlines_from_trailing (n : nat) s ws acc :
  (length s ≤ n)%nat → forallb is_space ws = true →
  match last s with Some c => is_space c = false | None => True end →
  same_rows (splitlines_from acc (s ++ ws)) (splitlines_from acc s).
Proof.
  revert s acc. induction n as [|n IH]; intros s acc Hlen Hws Hlast.
  { destruct s; [|simpl in Hlen; lia]. cbn [app].
    apply (splitlines_from_trailing_spaces (length ws)); [lia|done]. }
  destruct s as [|c s].
  { cbn [app].
    apply (splitlines_from_trailing_spaces (length ws)); [lia|done]. }
  cbn [length] in Hlen. cbn [app splitlines_from].
  destruct (is_linebreak c) eqn:Hc.
  - apply same_rows_cons; [done|].
    destruct s as [|d s'].
    { apply linebreak_is_space in Hc. cbn in Hlast. congruence. }
    cbn [length] in Hlen. cbn [app].
    destruct ((ord c =? 13)%N && (ord d =? 10)%N).
    + apply (IH s' []); [lia|done|].
      rewrite !last_cons in Hlast. by destruct (last s').
    + apply (IH (d :: s') []); [simpl; lia|done|].
      rewrite last_cons in Hlast. rewrite last_cons.
      rewrite last_cons in Hlast. by destruct (last s').
  - apply (IH s (c :: acc)); [lia|done|].
    rewrite last_cons in Hlast. by destruct (last s).
Qed.

(** [strip] takes whitespace off both ends and nothing else. *)
Lemma strip_decompose s :
  ∃ ws1 ws2,
    s = ws1 ++ strip s ++ ws2
    ∧ forallb is_space ws1 = true ∧ forallb is_space ws2 = true
    ∧ match strip s with c :: _ => is_space c = false | [] => True end
    ∧ match last (strip s) with
      | Some c => is_space c = false
      | None => True
      end.
Proof.
  exists (take_while is_space s),
         (rev (take_while is_space (rev (lstrip s)))).
  assert (Hright : lstrip s = strip s
                   ++ rev (take_while is_space (rev (lstrip s)))).
  { unfold strip, rstrip. rewrite <- rev_app_distr, take_drop_while.
    by rewrite rev_involutive. }
  split; [|split; [|split; [|split]]].
  - rewrite <- Hright. unfold lstrip. by rewrite take_drop_while.
  - apply forallb_take_while.
  - rewrite forallb_rev. apply forallb_take_while.
  - destruct (strip s) as [|c core] eqn:Hcore; [done|].
    apply (head_drop_while is_space s c). fold (lstrip s).
    by rewrite Hright.
  - unfold strip, rstrip.
    destruct (drop_while is_space (rev (lstrip s))) as [|c rest] eqn:Hdrop;
      [done|].
    cbn [rev]. rewrite last_snoc.
    apply (head_drop_while is_space (rev (lstrip s)) c). by rewrite Hdrop.
Qed.

(** The [strip] of the whole text of the file changes no row. *)
Lemma splitlines_strip s :
  same_rows (splitlines (strip s)) (splitlines s).
Proof.
  destruct (strip_decompose s) as (ws1 & ws2 & Hs & Hws1 & Hws2 & Hhead & Hlast).
  unfold splitlines. rewrite Hs at 2. intros rows. symmetry. revert rows.
  destruct (strip s) as [|c core] eqn:Hcore.
  - cbn [app]. rewrite <- (app_nil_r (ws1 ++ ws2)).
    apply (splitlines_from_leading_spaces (length (ws1 ++ ws2)));
      [lia| |done|done].
    rewrite forallb_app. by rewrite Hws1, Hws2.
  - eapply same_rows_trans.
    + apply (splitlines_from_leading_spaces (length ws1)); [lia|done|done|].
      exact Hhead.
    + apply (splitlines_from_trailing (length (c :: core))); [lia|done|done].
Qed.

(** *** Line endings *)

Lemma splitlines_from_run line s acc :
  forallb (λ c, negb (is_linebreak c)) line = true →
  splitlines_from acc (line ++ s) = splitlines_from (rev line ++ acc) s.
Proof.
  revert acc. induction line as [|c line IH]; intros acc Hline; [done|].
  cbn [forallb] in Hline. apply andb_prop in Hline as [Hc Hline].
  apply negb_true_iff in Hc. cbn [app splitlines_from]. rewrite Hc.
  rewrite IH by done. cbn [rev]. by rewrite <- app_assoc.
Qed.

Lemma splitlines_from_LF acc s :
  splitlines_from acc ([LF] ++ s) = rev acc :: splitlines_from [] s.
Proof. by destruct s. Qed.

Lemma splitlines_from_CRLF acc s :
  splitlines_from acc ([CR; LF] ++ s) = rev acc :: splitlines_from [] s.
Proof. done. Qed.

Lemma splitlines_join (sep : text) lines :
  (∀ acc s, splitlines_from acc (sep ++ s)
            = rev acc :: splitlines_from [] s) →
  Forall (λ line, forallb (λ c, negb (is_linebreak c)) line = true) lines →
  same_rows (splitlines (join sep lines)) lines.
Proof.
  intros Hsep. unfold splitlines.
  induction 1 as [|line lines Hline Hlines IH]; [apply same_rows_refl|].
  destruct lines as [|line' lines].
  - cbn [join]. rewrite <- (app_nil_r line) at 1.
    rewrite splitlines_from_run by done. rewrite app_nil_r.
    cbn [splitlines_from]. destruct line as [|c line]; [by intros rows|].
    destruct (rev (c :: line)) eqn:Hrev.
    { apply (f_equal (@length _)) in Hrev. rewrite length_rev in Hrev.
      discriminate. }
    rewrite <- Hrev, rev_involutive. apply same_rows_refl.
  - change (join sep (line :: line' :: lines))
      with (line ++ sep ++ join sep (line' :: lines)).
    rewrite splitlines_from_run, Hsep, app_nil_r, rev_involutive by done.
    by apply same_rows_cons.
Qed.

End line_endings.

(** The [strip] applied to the whole text of the file is redundant: the
    pairs are those the loop gives on the lines of the text as it is,
    since whitespace around the text only adds blank lines and
    whitespace around the first and last line. *)
Theorem parse_il_ts_file_outer_strip (content : text) :
  parse_il_ts_file content = parse_lines (splitlines content) [].
Proof. apply splitlines_strip. Qed.

(** The line ending makes no difference: for lines without a line
    boundary in them, the file that joins them by "\r\n" and the file that
    joins them by "\n" both yield the pairs the loop gives on the lines. *)
Theorem parse_il_ts_file_line_endings (lines : list text) :
  Forall (λ line, forallb (λ c, negb (is_linebreak c)) line = true) lines →
  parse_il_ts_file (join [CR; LF] lines) = parse_lines lines []
  ∧ parse_il_ts_file (join [LF] lines) = parse_lines lines [].
Proof.
  intros Hlines. unfold parse_il_ts_file. split.
  - rewrite (splitlines_strip (join [CR; LF] lines) []).
    by apply (splitlines_join [CR; LF]); [apply splitlines_from_CRLF|].
  - rewrite (splitlines_strip (join [LF] lines) []).
    by apply (splitlines_join [LF]); [apply splitlines_from_LF|].
Qed.

Lemma parse_il_ts_file_line_endings_witness :
  parse_il_ts_file
    (join [CR; LF] [of_string "2020" ++ [tab] ++ of_string "5";
                    of_string "2021 7"])
  = parse_il_ts_file
      (join [LF] [of_string "2020" ++ [tab] ++ of_string "5";
                  of_string "2021 7"]).
Proof.
  destruct (parse_il_ts_file_line_endings
              [of_string "2020" ++ [tab] ++ of_string "5";
               of_string "2021 7"]) as [-> ->];
    [by repeat constructor|reflexivity].
Defined.

(** * Properties of the dashboard *)

(** ** [int(s, 16)] on two characters, [hex_to_rgba] *)

Section hex_facts.

(** Every character is among the 256 code points. *)
Lemma ascii_enum (c : ascii) : In c (map ascii_of_nat (seq 0 256)).
Proof.
  rewrite <- (ascii_nat_embedding c). apply in_map, in_seq.
  pose proof (nat_ascii_bounded c). lia.
Qed.

Lemma forall_ascii2 (f : ascii → ascii → bool) :
  forallb (λ c1, forallb (f c1) (map ascii_of_nat (seq 0 256)))
    (map ascii_of_nat (seq 0 256)) = true →
  ∀ c1 c2, f c1 c2 = true.
Proof.
  intros Hall c1 c2. rewrite forallb_forall in Hall.
  specialize (Hall c1 (ascii_enum c1)). rewrite forallb_forall in Hall.
  apply Hall, ascii_enum.
Qed.

(** Two hexadecimal digits are read as such. *)
Lemma int16_hex_digits (c1 c2 : ascii) (v1 v2 : Z) :
  hex_digit_value c1 = Some v1 → hex_digit_value c2 = Some v2 →
  int16 [c1; c2] = Some (16 * v1 + v2) ∧ 0 ≤ 16 * v1 + v2 ≤ 255.
Proof.
  pose proof (forall_ascii2 (λ c1 c2,
    match hex_digit_value c1, hex_digit_value c2 with
    | Some v1, Some v2 =>
        bool_decide (int16 [c1; c2] = Some (16 * v1 + v2))
        && bool_decide (0 ≤ 16 * v1 + v2 ≤ 255)
    | _, _ => true
    end)) as Hall.
  intros H1 H2. specialize (Hall ltac:(by vm_compute) c1 c2).
  cbv beta in Hall. rewrite H1, H2 in Hall. apply andb_prop in Hall as [Hv Hr].
  by apply bool_decide_eq_true in Hv, Hr.
Qed.

(** Whatever two characters [int(s, 16)] accepts, the number is between
    -15 and 255: a sign or a blank may stand for one of the digits. *)
Lemma int16_pair_range (c1 c2 : ascii) (n : Z) :
  int16 [c1; c2] = Some n → -15 ≤ n ≤ 255.
Proof.
  pose proof (forall_ascii2 (λ c1 c2,
    match int16 [c1; c2] with
    | Some n => bool_decide (-15 ≤ n ≤ 255)
    | None => true
    end)) as Hall.
  intros Hn. specialize (Hall ltac:(by vm_compute) c1 c2).
  cbv beta in Hall. rewrite Hn in Hall. by apply bool_decide_eq_true in Hall.
Qed.

Lemma hex_digit_not_hash (c : ascii) (v : Z) :
  hex_digit_value c = Some v → (ord c =? 35)%N = false.
Proof.
  unfold hex_digit_value. intros Hv. apply N.eqb_neq. intros Hc.
  rewrite Hc in Hv. discriminate.
Qed.

Lemma drop_hashes (n : nat) (h : text) :
  match h with [] => True | c :: _ => (ord c =? 35)%N = false end →
  drop_while (λ c, (ord c =? 35)%N) (replicate n "#"%char ++ h) = h.
Proof.
  intros Hh. rewrite drop_while_app.
  - by apply drop_while_stop.
  - induction n as [|n IH]; [done|]. simpl. exact IH.
Qed.

End hex_facts.

(** The shorthand form: a colour of three characters, after any number of
    '#', is converted as the colour of six characters in which each of
    the three is doubled. *)
Theorem hex_to_rgba_shorthand (n : nat) (c0 c1 c2 : ascii) (alpha : string) :
  c0 ≠ "#"%char →
  hex_to_rgba (replicate n "#"%char ++ [c0; c1; c2]) alpha
  = hex_to_rgba [c0; c0; c1; c1; c2; c2] alpha.
Proof.
  intros Hc0.
  assert (Hord : (ord c0 =? 35)%N = false).
  { apply N.eqb_neq. intros Hc. apply Hc0.
    rewrite <- (ascii_N_embedding c0). unfold ord in Hc. by rewrite Hc. }
  unfold hex_to_rgba. rewrite drop_hashes by done.
  cbn [drop_while]. by rewrite Hord.
Qed.

Lemma hex_to_rgba_shorthand_witness :
  hex_to_rgba (of_string "#fa0") "0.2" = Ok (of_string "rgba(255,170,0,0.2)").
Proof.
  etrans;
    [exact (hex_to_rgba_shorthand 1 "f" "a" "0" "0.2" ltac:(discriminate))|].
  by vm_compute.
Defined.

(** A colour of six hexadecimal digits, after any number of '#': the
    result is the text "rgba(r,g,b,alpha)" with the values of the three
    pairs of digits, each between 0 and 255; what follows the sixth digit
    is ignored. *)
Theorem hex_to_rgba_six_digits (n : nat) (d1 d2 d3 d4 d5 d6 : ascii)
    (v1 v2 v3 v4 v5 v6 : Z) (tail : text) (alpha : string) :
  hex_digit_value d1 = Some v1 → hex_digit_value d2 = Some v2 →
  hex_digit_value d3 = Some v3 → hex_digit_value d4 = Some v4 →
  hex_digit_value d5 = Some v5 → hex_digit_value d6 = Some v6 →
  hex_to_rgba (replicate n "#"%char ++ [d1; d2; d3; d4; d5; d6] ++ tail) alpha
  = Ok (rgba (16 * v1 + v2) (16 * v3 + v4) (16 * v5 + v6) alpha)
  ∧ 0 ≤ 16 * v1 + v2 ≤ 255 ∧ 0 ≤ 16 * v3 + v4 ≤ 255
  ∧ 0 ≤ 16 * v5 + v6 ≤ 255.
Proof.
  intros H1 H2 H3 H4 H5 H6.
  destruct (int16_hex_digits d1 d2 v1 v2 H1 H2) as [Hr ?].
  destruct (int16_hex_digits d3 d4 v3 v4 H3 H4) as [Hg ?].
  destruct (int16_hex_digits d5 d6 v5 v6 H5 H6) as [Hb ?].
  split; [|done].
  unfold hex_to_rgba. rewrite drop_hashes by by eapply hex_digit_not_hash.
  cbn [app hex_to_rgba_rgb length Nat.leb take drop]. unfold int_16.
  rewrite take_0, Hr, Hg, Hb. done.
Qed.

Lemma hex_to_rgba_six_digits_witness :
  hex_to_rgba (of_string "#1f77b4") "0.15"
  = Ok (of_string "rgba(31,119,180,0.15)").
Proof.
  exact (proj1 (hex_to_rgba_six_digits 1 "1" "f" "7" "7" "b" "4"
                  1 15 7 7 11 4 [] "0.15"
                  eq_refl eq_refl eq_refl eq_refl eq_refl eq_refl)).
Defined.

(** What [hex_to_rgba] returns is its argument, or the text
    "rgba(r,g,b,alpha)" for numbers between -15 and 255.  The numbers need
    not lie between 0 and 255: [int(s, 16)] takes a sign or a blank in the
    place of a digit. *)
Theorem hex_to_rgba_returns (hex_color : text) (alpha : string)
    (out : text) :
  hex_to_rgba hex_color alpha = Ok out →
  out = hex_color
  ∨ ∃ r g b, out = rgba r g b alpha
             ∧ -15 ≤ r ≤ 255 ∧ -15 ≤ g ≤ 255 ∧ -15 ≤ b ≤ 255.
Proof.
  unfold hex_to_rgba.
  generalize (drop_while (λ c, (ord c =? 35)%N) hex_color). intros h.
  assert (Hrange : ∀ s1 s2 s3 : ascii * ascii,
    (r ← int_16 [s1.1; s1.2]; g ← int_16 [s2.1; s2.2];
     b ← int_16 [s3.1; s3.2]; Ok (r, g, b))
      ≫= (λ '(r, g, b), Ok (rgba r g b alpha)) = Ok out →
    ∃ r g b, out = rgba r g b alpha
             ∧ -15 ≤ r ≤ 255 ∧ -15 ≤ g ≤ 255 ∧ -15 ≤ b ≤ 255).
  { intros [a1 a2] [b1 b2] [c1 c2]. unfold int_16. cbn [fst snd].
    destruct (int16 [a1; a2]) as [r|] eqn:Hr; [|done].
    destruct (int16 [b1; b2]) as [g|] eqn:Hg; [|done].
    destruct (int16 [c1; c2]) as [b|] eqn:Hb; [|done].
    cbn [mbind result_bind]. intros [= <-]. exists r, g, b.
    split; [done|]. split; [|split]; by eapply int16_pair_range. }
  destruct h as [|c0 [|c1 [|c2 [|c3 [|c4 [|c5 h]]]]]];
    cbn [hex_to_rgba_rgb length Nat.leb take drop];
    try (intros [= <-]; by left); intros Hout; right.
  - by apply (Hrange (c0, c0) (c1, c1) (c2, c2)).
  - by apply (Hrange (c0, c1) (c2, c3) (c4, c5)).
Qed.

Lemma hex_to_rgba_returns_witness :
  hex_to_rgba (of_string "#-f00 f") "0.2"
  = Ok (of_string "rgba(-15,0,15,0.2)")
  ∧ (of_string "rgba(-15,0,15,0.2)" = of_string "#-f00 f"
     ∨ ∃ r g b, of_string "rgba(-15,0,15,0.2)" = rgba r g b "0.2"
                ∧ -15 ≤ r ≤ 255 ∧ -15 ≤ g ≤ 255 ∧ -15 ≤ b ≤ 255).
Proof.
  assert (Hout : hex_to_rgba (of_string "#-f00 f") "0.2"
                 = Ok (of_string "rgba(-15,0,15,0.2)")) by (by vm_compute).
  split; [exact Hout|].
  exact (hex_to_rgba_returns _ _ _ Hout).
Defined.

(** ** Topic names and the controls *)

Section topic_map_facts.

Lemma drop_duplicates_from_elem {A} `{EqDecision A} (seen l : list A) x :
  x ∈ drop_duplicates_from seen l ↔ x ∈ l ∧ x ∉ seen.
Proof.
  revert seen. induction l as [|y l IH]; intros seen; cbn [drop_duplicates_from].
  - rewrite elem_of_nil. tauto.
  - destruct (decide (y ∈ seen)) as [Hy|Hy].
    + rewrite IH, elem_of_cons. split; [tauto|].
      intros [[->|Hx] Hseen]; tauto.
    + rewrite !elem_of_cons, IH, not_elem_of_cons.
      destruct (decide (x = y)) as [->|Hne]; tauto.
Qed.

Lemma drop_duplicates_elem {A} `{EqDecision A} (l : list A) x :
  x ∈ drop_duplicates l ↔ x ∈ l.
Proof.
  unfold drop_duplicates. rewrite drop_duplicates_from_elem, elem_of_nil.
  tauto.
Qed.

Context {K V : Type} `{Countable K}.

Lemma to_dict_from_lookup (items : list (K * V)) (d : gmap K V) k v :
  foldl (λ d kv, <[kv.1 := kv.2]> d) d items !! k = Some v →
  (k, v) ∈ items ∨ d !! k = Some v.
Proof.
  revert d. induction items as [|[k' v'] items IH]; intros d; cbn [foldl].
  - auto.
  - intros [Hin|Hd]%IH; [left; by apply list_elem_of_further|].
    cbn [fst snd] in Hd. destruct (decide (k' = k)) as [->|Hne].
    + rewrite lookup_insert_eq in Hd. injection Hd as ->.
      left. apply list_elem_of_here.
    + rewrite lookup_insert_ne in Hd by done. by right.
Qed.

Lemma to_dict_from_dom (items : list (K * V)) (d : gmap K V) k :
  k ∈ dom (foldl (λ d kv, <[kv.1 := kv.2]> d) d items)
  ↔ k ∈ items.*1 ∨ k ∈ dom d.
Proof.
  revert d. induction items as [|[k' v'] items IH]; intros d; cbn [foldl].
  - rewrite fmap_nil, elem_of_nil. tauto.
  - rewrite IH, fmap_cons, elem_of_cons, dom_insert, elem_of_union,
      elem_of_singleton. cbn [fst snd]. tauto.
Qed.

Lemma to_dict_lookup (items : list (K * V)) k v :
  to_dict items !! k = Some v → (k, v) ∈ items.
Proof.
  unfold to_dict. intros [?|Hempty]%to_dict_from_lookup; [done|].
  by rewrite lookup_empty in Hempty.
Qed.

Lemma to_dict_dom (items : list (K * V)) k :
  k ∈ dom (to_dict items) ↔ k ∈ items.*1.
Proof.
  unfold to_dict. rewrite to_dict_from_dom, dom_empty, elem_of_empty. tauto.
Qed.

End topic_map_facts.

Section topic_fill.

(** The loop that fills in the names of the topics without one. *)
Lemma topic_fill_lookup (tids : list Z) (d : gmap Z string) (k : Z) :
  foldl (λ topic_map tid,
           if decide (tid ∈ dom topic_map) then topic_map
           else <[tid := ("Topic " ++ str tid)%string]> topic_map) d tids !! k
  = match d !! k with
    | Some name => Some name
    | None => if decide (k ∈ tids) then Some ("Topic " ++ str k)%string
              else None
    end.
Proof.
  revert d. induction tids as [|tid tids IH]; intros d; cbn [foldl].
  - destruct (d !! k); [done|]. by rewrite decide_False by apply not_elem_of_nil.
  - rewrite IH. destruct (decide (tid ∈ dom d)) as [Hin|Hnin].
    + destruct (d !! k) eqn:Hk; [done|].
      assert (k ≠ tid).
      { intros ->. apply elem_of_dom in Hin as [? ?]. congruence. }
      destruct (decide (k ∈ tids)) as [Hk'|Hk'].
      * by rewrite decide_True by by apply list_elem_of_further.
      * rewrite decide_False; [done|]. by intros [?|?]%elem_of_cons.
    + apply not_elem_of_dom in Hnin.
      destruct (decide (k = tid)) as [->|Hne].
      * rewrite lookup_insert_eq, Hnin.
        by rewrite decide_True by apply list_elem_of_here.
      * rewrite lookup_insert_ne by done. destruct (d !! k); [done|].
        destruct (decide (k ∈ tids)) as [Hk'|Hk'].
        -- by rewrite decide_True by by apply list_elem_of_further.
        -- rewrite decide_False; [done|]. by intros [?|?]%elem_of_cons.
Qed.

Lemma topic_map_lookup (df : list row) (tid : Z) :
  topic_map df !! tid
  = match to_dict (drop_duplicates
                     ((λ r, (Search_Topic_ID r, Search_Topic r)) <$> df))
            !! tid with
    | Some name => Some name
    | None => if decide (0 ≤ tid < 6) then Some ("Topic " ++ str tid)%string
              else None
    end.
Proof.
  unfold topic_map. rewrite topic_fill_lookup.
  destruct (to_dict _ !! tid); [done|].
  apply decide_ext. rewrite elem_of_seqZ. lia.
Qed.

Lemma topic_map_named (df : list row) (tid : Z) :
  tid ∈ dom (to_dict (drop_duplicates
                        ((λ r, (Search_Topic_ID r, Search_Topic r)) <$> df)))
  ↔ tid ∈ Search_Topic_ID <$> df.
Proof.
  rewrite to_dict_dom, !list_elem_of_fmap. split.
  - intros ([tid' name] & -> & Hin). rewrite drop_duplicates_elem in Hin.
    apply list_elem_of_fmap in Hin as (r & [= -> ->] & Hr). eauto.
  - intros (r & -> & Hr). exists (Search_Topic_ID r, Search_Topic r).
    split; [done|]. apply drop_duplicates_elem.
    by apply (list_elem_of_fmap_2 (λ r, (Search_Topic_ID r, Search_Topic r))).
Qed.

Lemma topic_map_dom (df : list row) (tid : Z) :
  tid ∈ dom (topic_map df) ↔ tid ∈ Search_Topic_ID <$> df ∨ 0 ≤ tid < 6.
Proof.
  rewrite <- topic_map_named, !elem_of_dom, topic_map_lookup.
  destruct (to_dict _ !! tid) as [name|].
  - split; [left|]; by eexists.
  - destruct (decide (0 ≤ tid < 6)).
    + split; [by right|by eexists].
    + split; [by intros [? ?]|]. by intros [[? ?]|?].
Qed.

End topic_fill.

(** [topic_map] has a name for every topic ID of the table and for every
    ID from 0 to 5, and for no other.  An ID from 0 to 5 that is not in the
    table is named "Topic" and its number; the name of an ID of the table
    is the Search_Topic of one of its rows, so the one name all its rows
    have when they agree. *)
Theorem topic_map_names (df : list row) (tid : Z) :
  (tid ∈ dom (topic_map df) ↔ tid ∈ Search_Topic_ID <$> df ∨ 0 ≤ tid < 6)
  ∧ (tid ∉ Search_Topic_ID <$> df → 0 ≤ tid < 6 →
     topic_map df !! tid = Some ("Topic " ++ str tid)%string)
  ∧ (∀ name, tid ∈ Search_Topic_ID <$> df →
       topic_map df !! tid = Some name →
       ∃ r, r ∈ df ∧ Search_Topic_ID r = tid ∧ Search_Topic r = name).
Proof.
  split; [apply topic_map_dom|]. split.
  - intros Hnin Hrange. rewrite topic_map_lookup.
    rewrite <- topic_map_named in Hnin. apply not_elem_of_dom in Hnin.
    rewrite Hnin. by rewrite decide_True.
  - intros name Hin. rewrite topic_map_lookup.
    rewrite <- topic_map_named in Hin. apply elem_of_dom in Hin as [name' Hn].
    rewrite Hn. intros [= <-]. apply to_dict_lookup in Hn.
    rewrite drop_duplicates_elem in Hn.
    apply list_elem_of_fmap in Hn as (r & [= -> ->] & Hr). eauto.
Qed.

Lemma StronglySorted_strict {A} (R S : relation A) (l : list A) :
  (∀ x y, R x y → x ≠ y → S x y) →
  StronglySorted R l → NoDup l → StronglySorted S l.
Proof.
  intros HRS. induction 1 as [|x l Hl IH Hx]; intros Hnd; constructor.
  - apply IH. by apply NoDup_cons in Hnd as [_ ?].
  - apply NoDup_cons in Hnd as [Hnotin _].
    apply Forall_forall. intros y Hy. rewrite Forall_forall in Hx.
    apply HRS; [by apply Hx|]. by intros ->.
Qed.

(** The topic selector offers the IDs of the table and 0 to 5, in
    ascending order, and its default is always topic 0: the branches of the
    script for a selector without topic 0, or without options, are never
    taken. *)
Theorem default_topics_zero (df : list row) :
  default_topics (options (topic_map df)) = [0]
  ∧ StronglySorted Z.lt (options (topic_map df))
  ∧ ∀ tid, tid ∈ options (topic_map df)
           ↔ tid ∈ Search_Topic_ID <$> df ∨ 0 ≤ tid < 6.
Proof.
  assert (Helem : ∀ tid, tid ∈ options (topic_map df)
                         ↔ tid ∈ Search_Topic_ID <$> df ∨ 0 ≤ tid < 6).
  { intros tid. unfold options.
    by rewrite merge_sort_Permutation, elem_of_elements, topic_map_dom. }
  split; [|split; [|done]].
  - assert (Hzero : 0 ∈ options (topic_map df)) by (apply Helem; lia).
    unfold default_topics.
    destruct (options (topic_map df)) as [|o os];
      [by apply elem_of_nil in Hzero|].
    by rewrite decide_True.
  - unfold options. apply (StronglySorted_strict Z.le).
    + intros x y. lia.
    + apply (StronglySorted_merge_sort Z.le).
    + rewrite merge_sort_Permutation. apply NoDup_elements.
Qed.

(** ** The year slider *)

Section year_facts.

Lemma foldr_min_le (y : Z) (ys : list Z) (bound : Z) :
  foldr Z.min y ys ≤ bound ↔ ∃ y', y' ∈ y :: ys ∧ y' ≤ bound.
Proof.
  induction ys as [|y0 ys IH]; cbn [foldr].
  - split; [intros ?; exists y; split; [apply list_elem_of_here|done]|].
    by intros (y' & ->%list_elem_of_singleton & ?).
  - rewrite Z.min_le_iff, IH. split.
    + intros [?|(y' & [->|Hy']%elem_of_cons & ?)].
      * exists y0. split; [|done].
        apply list_elem_of_further, list_elem_of_here.
      * exists y. split; [apply list_elem_of_here|done].
      * exists y'. split; [|done].
        by apply list_elem_of_further, list_elem_of_further.
    + intros (y' & [->|[->|Hy']%elem_of_cons]%elem_of_cons & ?).
      * right. exists y. split; [apply list_elem_of_here|done].
      * by left.
      * right. exists y'. split; [by apply list_elem_of_further|done].
Qed.

Lemma foldr_max_ge (y : Z) (ys : list Z) (bound : Z) :
  bound ≤ foldr Z.max y ys ↔ ∃ y', y' ∈ y :: ys ∧ bound ≤ y'.
Proof.
  induction ys as [|y0 ys IH]; cbn [foldr].
  - split; [intros ?; exists y; split; [apply list_elem_of_here|done]|].
    by intros (y' & ->%list_elem_of_singleton & ?).
  - rewrite Z.max_le_iff, IH. split.
    + intros [?|(y' & [->|Hy']%elem_of_cons & ?)].
      * exists y0. split; [|done].
        apply list_elem_of_further, list_elem_of_here.
      * exists y. split; [apply list_elem_of_here|done].
      * exists y'. split; [|done].
        by apply list_elem_of_further, list_elem_of_further.
    + intros (y' & [->|[->|Hy']%elem_of_cons]%elem_of_cons & ?).
      * right. exists y. split; [apply list_elem_of_here|done].
      * by left.
      * right. exists y'. split; [by apply list_elem_of_further|done].
Qed.

End year_facts.

(** The year slider offers only years from 1975 to 2024, and the pair
    (1975, 2024) the script passes as its initial value is among the
    options exactly when the table has a row of 1975 or earlier and a row
    of 2024 or later. *)
Theorem year_options_initial_value (df : list row) (years : list Z) :
  year_options df = Ok years →
  Forall (λ y, 1975 ≤ y ≤ 2024) years
  ∧ (1975 ∈ years ∧ 2024 ∈ years
     ↔ (∃ r, r ∈ df ∧ Year r ≤ 1975) ∧ (∃ r, r ∈ df ∧ 2024 ≤ Year r)).
Proof.
  unfold year_options.
  assert (Hrows : ∀ P : Z → Prop,
    (∃ y', y' ∈ Year <$> df ∧ P y') ↔ (∃ r, r ∈ df ∧ P (Year r))).
  { intros P. split.
    - intros (y' & (r & -> & Hr)%list_elem_of_fmap & HP). eauto.
    - intros (r & Hr & HP). exists (Year r).
      split; [by apply list_elem_of_fmap_2|done]. }
  destruct (Year <$> df) as [|y ys] eqn:Hyears; [done|].
  intros [= <-]. split.
  - apply Forall_forall. intros y'. rewrite elem_of_seqZ. lia.
  - assert (Hmin : foldr Z.min y ys ≤ 1975 ↔ ∃ r, r ∈ df ∧ Year r ≤ 1975).
    { rewrite foldr_min_le. exact (Hrows (λ y', y' ≤ 1975)). }
    assert (Hmax : 2024 ≤ foldr Z.max y ys ↔ ∃ r, r ∈ df ∧ 2024 ≤ Year r).
    { rewrite foldr_max_ge. exact (Hrows (λ y', 2024 ≤ y')). }
    rewrite <- Hmin, <- Hmax, !elem_of_seqZ. lia.
Qed.

Lemma year_options_initial_value_witness :
  Forall (λ y, 1975 ≤ y ≤ 2024) [2000].
Proof.
  exact (proj1 (year_options_initial_value [sample_row 1 "KW" 4] [2000]
                  eq_refl)).
Defined.

(** ** The totals of the series *)

Section totals_facts.

Implicit Types (rows : list row) (agg_rows : list agg_row) (s : Z * string).

#[global] Instance count_ge_trans : Transitive count_ge.
Proof. unfold count_ge. intros t1 t2 t3. lia. Qed.

#[global] Instance count_ge_total : Total count_ge.
Proof. unfold count_ge. intros t1 t2. lia. Qed.

#[global] Instance year_le_trans : Transitive year_le.
Proof. unfold year_le. intros a1 a2 a3. lia. Qed.

#[global] Instance year_le_total : Total year_le.
Proof. unfold year_le. intros a1 a2. lia. Qed.








End totals_facts.


(** ** The traces of the figure *)

Section trace_facts.

Implicit Types (rows : list row) (agg_rows : list agg_row) (s : Z * string).






End trace_facts.




